(** * HttpClient: a shallow embedding of [httpclient.h] / [httpclient.cpp]

    The client is a thin adapter over libcurl and boost::property_tree.
    The embedding follows the C++ text function by function:

    - [std::string] is [string]; [size_t] is [N] with the wrap-around of
      64-bit unsigned arithmetic written out; [int] and [long] are [Z];
      [unsigned int] is [N] modulo [2^32] (an LP64 target); [std::isspace]
      is that of the "C" locale;
    - [headermap] ([std::map<std::string,std::string>]) is a
      [gmap string string];
    - [boost::shared_ptr<ptree>] is [option ptree] ([None] is the null
      pointer);
    - methods run in a small state-and-exception monad [M] whose state
      holds the client object (credentials and curl handle), the libcurl
      entry points called so far and the error log, and whose outcomes are
      a normal return, a thrown C++ exception, or the dereference of a
      null pointer;
    - libcurl's network side, [curl_easy_strerror] and boost's JSON reader
      are not part of the repository: they enter as section variables, and
      the properties hold whatever they are.

    The first part holds the definitions, the second the properties. *)

From Stdlib Require Import ZArith NArith Ascii Lia.
From stdpp Require Import gmap strings list pretty.

Set Warnings "-register-all".

Local Open Scope N_scope.

(** ** Machine integers *)

Definition SIZE_MAX_plus_1 : N := 2 ^ 64.
Definition UINT_MAX_plus_1 : N := 2 ^ 32.

(** [size * nmemb] on [size_t]. *)
Definition size_t_mul (a b : N) : N := (a * b) mod SIZE_MAX_plus_1.

(** [++count] on [unsigned int]. *)
Definition uint_incr (c : N) : N := (c + 1) mod UINT_MAX_plus_1.

(** [static_cast<int>(long)] on an LP64 target: keep the low 32 bits,
    read as two's complement. *)
Definition static_cast_int (z : Z) : Z :=
  ((z + 2 ^ 31) mod 2 ^ 32 - 2 ^ 31)%Z.

(** [static_cast<long>(size_t)]: the low 64 bits read as two's complement. *)
Definition static_cast_long (n : N) : Z :=
  ((Z.of_N n + 2 ^ 63) mod 2 ^ 64 - 2 ^ 63)%Z.

(** ** std::string *)

Module std.

Definition size (s : string) : N := N.of_nat (String.length s).

(** [std::isspace] in the "C" locale: space, \t, \n, \v, \f, \r. *)
Definition isspace (c : ascii) : bool :=
  let n := N_of_ascii c in ((9 <=? n) && (n <=? 13)) || (n =? 32).

Fixpoint take (n : nat) (s : string) : string :=
  match n, s with
  | S n', String c s' => String c (take n' s')
  | _, _ => ""
  end.

Fixpoint drop (n : nat) (s : string) : string :=
  match n, s with
  | S n', String _ s' => drop n' s'
  | _, _ => s
  end.

(** [s.substr(pos, n)]; both call sites have [pos <= s.size()], so the
    [out_of_range] throw is never taken. *)
Definition substr (s : string) (pos n : nat) : string := take n (drop pos s).

(** [s.substr(pos)], the count defaulting to [npos]. *)
Definition substr_from (s : string) (pos : nat) : string := drop pos s.

(** [std::string(ptr, n)] and [append(ptr, n)]: the first [n] bytes of
    the memory at [ptr]. *)
Definition of_buffer (mem : string) (n : N) : string := take (N.to_nat n) mem.

Fixpoint mem_char (c : ascii) (chars : string) : bool :=
  match chars with
  | "" => false
  | String d chars' => if decide (c = d) then true else mem_char c chars'
  end.

(** [s.find_first_of(chars)]; [None] is [std::string::npos]. *)
Fixpoint find_first_of (s chars : string) : option nat :=
  match s with
  | "" => None
  | String c s' =>
      if mem_char c chars then Some 0%nat
      else S <$> find_first_of s' chars
  end.

(** [ptr] read as a NUL-terminated C string ([c_str()] handed to a C API
    without a length, or a [char] array appended to a [std::string]). *)
Fixpoint c_str (s : string) : string :=
  match s with
  | "" => ""
  | String c s' => if decide (c = zero) then "" else String c (c_str s')
  end.

(** [os << n] for an [int] in the classic locale. *)
Definition of_int (z : Z) : string := pretty z.

End std.

(** ** Trimming helpers of the header ([ltrim], [rtrim], [trim]) *)

(** [s.erase(s.begin(), find_if(s.begin(), s.end(), not isspace))] *)
Fixpoint ltrim (s : string) : string :=
  match s with
  | "" => ""
  | String c s' => if std.isspace c then ltrim s' else s
  end.

(** [s.erase(find_if(s.rbegin(), s.rend(), not isspace).base(), s.end())]:
    the search runs over the reversed string. *)
Definition rtrim (s : string) : string :=
  String.rev (ltrim (String.rev s)).

Definition trim (s : string) : string := ltrim (rtrim s).

(** ** Data definitions of the class *)

Module response.
Record t := mk { code : Z; body : string; headers : gmap string string }.
End response.
Abbreviation response := response.t.

(** A [const char*] into a buffer: the buffer and the offset reached. *)
Record cptr := { mem : string; pos : N }.

Definition ptr_add (p : cptr) (n : N) : cptr :=
  {| mem := mem p; pos := (pos p + n) mod SIZE_MAX_plus_1 |}.

(** [memcpy(dst, p, n)]: the [n] bytes read at [p]. *)
Definition memcpy (p : cptr) (n : N) : string :=
  std.substr (mem p) (N.to_nat (pos p)) (N.to_nat n).

Module upload_object.
Record t := mk { data : cptr; length : N }.
End upload_object.
Abbreviation upload_object := upload_object.t.

(** ** The three libcurl callbacks *)

Definition write_callback (data : string) (size nmemb : N) (r : response)
  : N * response :=
  let r' := response.mk (response.code r)
              (response.body r +:+ std.of_buffer data (size_t_mul size nmemb))
              (response.headers r) in
  (size_t_mul size nmemb, r').

Definition header_callback (data : string) (size nmemb : N) (r : response)
  : N * response :=
  let header := std.of_buffer data (size_t_mul size nmemb) in
  match std.find_first_of header ":" with
  | None =>
      let header := trim header in
      if decide (std.size header = 0) then (size_t_mul size nmemb, r)
      else
        (size_t_mul size nmemb,
         response.mk (response.code r) (response.body r)
           (<[header := "present"]> (response.headers r)))
  | Some seperator =>
      let key := trim (std.substr header 0 seperator) in
      let value := trim (std.substr_from header (seperator + 1)) in
      (size_t_mul size nmemb,
       response.mk (response.code r) (response.body r)
         (<[key := value]> (response.headers r)))
  end.

(** Returns the bytes copied into curl's buffer, the count returned, and
    the cursor after the call. [u->length -= copy_size] cannot wrap since
    [copy_size <= u->length]. *)
Definition read_callback (size nmemb : N) (u : upload_object)
  : string * N * upload_object :=
  let curl_size := size_t_mul size nmemb in
  let copy_size :=
    if upload_object.length u <? curl_size then upload_object.length u
    else curl_size in
  let copied := memcpy (upload_object.data u) copy_size in
  (copied, copy_size,
   upload_object.mk (ptr_add (upload_object.data u) copy_size)
     (upload_object.length u - copy_size)).

(** ** boost::property_tree::ptree

    A node carries a string and an ordered sequence of (key, subtree)
    pairs; keys may repeat. Lookups by key return the first child of that
    key in sequence order, which is what the library's ordered index
    yields for trees grown with [push_back] (as [read_json] and [put] do).
    Paths are strings cut at the separator ['.']. *)

Module boost.

Inductive ptree : Type :=
  Node (data : string) (children : list (string * ptree)).

Definition data (t : ptree) : string := let 'Node d _ := t in d.
Definition children (t : ptree) : list (string * ptree) :=
  let 'Node _ c := t in c.

(** [ptree()] *)
Definition empty : ptree := Node "" [].

(** [pt.size()]: the number of direct children. *)
Definition size (t : ptree) : N := N.of_nat (List.length (children t)).

(** [find(key)] on the children. *)
Fixpoint find {A} (key : string) (l : list (string * A)) : option A :=
  match l with
  | [] => None
  | (k, c) :: l' => if decide (k = key) then Some c else find key l'
  end.

(** Assign to the first child of key [key]. *)
Fixpoint assign {A} (key : string) (c' : A) (l : list (string * A))
  : list (string * A) :=
  match l with
  | [] => []
  | (k, c) :: l' =>
      if decide (k = key) then (k, c') :: l' else (k, c) :: assign key c' l'
  end.

(** The fragments [string_path::reduce] yields one after the other until
    [empty()] holds: after a separator the path is empty only at the end
    of the string, so a trailing separator adds no fragment. *)
Fixpoint fragments_from (cur s : string) : list string :=
  match s with
  | "" => [String.rev cur]
  | String c s' =>
      if decide (c = "."%char)
      then String.rev cur ::
             match s' with "" => [] | _ => fragments_from "" s' end
      else fragments_from (String c cur) s'
  end.

Definition path_fragments (path : string) : list string :=
  match path with "" => [] | _ => fragments_from "" path end.

Fixpoint walk_path (frags : list string) (t : ptree) : option ptree :=
  match frags with
  | [] => Some t
  | fragment :: p =>
      match find fragment (children t) with
      | None => None
      | Some el => walk_path p el
      end
  end.

Definition get_child_optional (t : ptree) (path : string) : option ptree :=
  walk_path (path_fragments path) t.

(** [put(path, value)] for a string value: the node at [path] gets the
    value, missing nodes on the way being appended. *)
Fixpoint put_at (frags : list string) (value : string) (t : ptree) : ptree :=
  match frags with
  | [] => Node value (children t)
  | fragment :: p =>
      match find fragment (children t) with
      | Some el =>
          Node (data t) (assign fragment (put_at p value el) (children t))
      | None =>
          Node (data t) (children t ++ [(fragment, put_at p value empty)])
      end
  end.

Definition put (path value : string) (t : ptree) : ptree :=
  put_at (path_fragments path) value t.

(** [get_value<std::string>()]: the identity translator. *)
Definition get_value_string (t : ptree) : string := data t.

(** The direct children named [name], the notion of the specification. *)
Definition has_direct_child (t : ptree) (name : string) : Prop :=
  ∃ c, (name, c) ∈ children t.

End boost.

Abbreviation ptree := boost.ptree.

(** [boost::shared_ptr<ptree>]; [None] is the null pointer. *)
Abbreviation shared_ptr_ptree := (option ptree).

(** ** Exceptions, outcomes and the method monad *)

(** The exceptions met, with their [what()] text; [ptree_bad_data] is
    identified by the data that did not convert (its [data<>()]), its
    [what()] text spelling the target type as [typeid] names it on the
    platform. *)
Inductive exception : Type :=
| NullPointer (what : string)
| json_parser_error (what : string)
| ptree_bad_path (what : string)
| ptree_bad_data (data : string).

Inductive outcome (A : Type) : Type :=
| Returned (a : A)
| Thrown (e : exception)
| NullDereference.
Arguments Returned {A} a.
Arguments Thrown {A} e.
Arguments NullDereference {A}.

(** The options a verb sets on the handle. A [char*] argument handed over
    without a length is recorded as the C string libcurl reads from it,
    i.e. the bytes before the first NUL; the POST body, whose length is
    set beside it, is recorded as the whole buffer. Callback and
    callback-data options carry no payload, their target being the local
    [ret] or [up_obj] of the running call. *)
Inductive curl_option : Type :=
| CURLOPT_ERRORBUFFER
| CURLOPT_HTTPAUTH_BASIC
| CURLOPT_USERPWD (userpwd : string)
| CURLOPT_USERAGENT (agent : string)
| CURLOPT_URL (url : string)
| CURLOPT_WRITEFUNCTION
| CURLOPT_WRITEDATA
| CURLOPT_HEADERFUNCTION
| CURLOPT_HEADERDATA
| CURLOPT_POST (on : Z)
| CURLOPT_POSTFIELDS (bytes : string)
| CURLOPT_POSTFIELDSIZE (n : N)
| CURLOPT_PUT (on : Z)
| CURLOPT_UPLOAD (on : Z)
| CURLOPT_READFUNCTION
| CURLOPT_READDATA
| CURLOPT_INFILESIZE (n : Z)
| CURLOPT_CUSTOMREQUEST (verb : string)
| CURLOPT_HTTPHEADER (lines : list string).

Global Instance curl_option_eq_dec : EqDecision curl_option.
Proof. solve_decision. Defined.

(** The handle: the options set since the last reset and the status code
    of the last transfer ([CURLINFO_RESPONSE_CODE]). *)
Record CURL := { options : list curl_option; info_response_code : Z }.

Definition curl_easy_init_handle : CURL :=
  {| options := []; info_response_code := 0 |}.

(** The libcurl entry points called, in call order. *)
Inductive curl_call : Type :=
| call_setopt (o : curl_option)
| call_perform (configured : list curl_option)
| call_getinfo_RESPONSE_CODE
| call_reset.

Record HttpClient := { _user_pass : string; _curl : CURL }.

Record world := {
  this : HttpClient;
  curl_calls : list curl_call;
  errlog : list string
}.

Definition M (A : Type) : Type := world → outcome A * world.

Definition ret_M {A} (a : A) : M A := λ w, (Returned a, w).
Definition throw {A} (e : exception) : M A := λ w, (Thrown e, w).
Definition null_dereference {A} : M A := λ w, (NullDereference, w).
Definition bind_M {A B} (m : M A) (k : A → M B) : M B :=
  λ w, match m w with
       | (Returned a, w') => k a w'
       | (Thrown e, w') => (Thrown e, w')
       | (NullDereference, w') => (NullDereference, w')
       end.

(** [try { m } catch (std::exception& e) { handler; throw; }] *)
Definition try_catch_rethrow {A} (m : M A) (handler : M unit) : M A :=
  λ w, match m w with
       | (Thrown e, w') =>
           match handler w' with
           | (Returned _, w'') => (Thrown e, w'')
           | (Thrown e', w'') => (Thrown e', w'')
           | (NullDereference, w'') => (NullDereference, w'')
           end
       | r => r
       end.

Global Instance M_ret : MRet M := @ret_M.
Global Instance M_bind : MBind M := λ A B k m, bind_M m k.

(** [*p] / [p->] on a shared pointer. *)
Definition deref {A} (p : option A) : M A :=
  match p with Some a => ret_M a | None => null_dereference end.

Definition endl : string := String (ascii_of_N 10) "".
Definition tab : string := String (ascii_of_N 9) "".

(** Modelled from the spec: the logging facility ([util/Logger.h], the
    [LOG_ERROR] macro and [logger::LogChannel]) is not among the sources.
    The specification describes it as an external sink invoked with plain
    text on error paths, fire-and-forget and without influence on control
    flow: one [LOG_ERROR] statement appends the text streamed into it to
    the log. *)
Definition LOG_ERROR (text : string) : M unit :=
  λ w, (Returned (),
        {| this := this w; curl_calls := curl_calls w;
           errlog := errlog w ++ [text] |}).

(** ** libcurl as seen from the client *)

Definition CURLcode := Z.
Definition CURLE_OK : CURLcode := 0%Z.

(** [CURL_ERROR_SIZE] of [curl/curl.h]. *)
Definition CURL_ERROR_SIZE : nat := 256.

(** [char buf[n] = {0}] *)
Fixpoint zeros (n : nat) : string :=
  match n with O => "" | S n' => String zero (zeros n') end.

(** [buf[i] = c] on a [char] array; nothing is modelled out of bounds. *)
Fixpoint store_char (buf : string) (i : nat) (c : ascii) : string :=
  match buf, i with
  | "", _ => ""
  | String _ buf', O => String c buf'
  | String b buf', S i' => String b (store_char buf' i' c)
  end.

(** The transport writing [text] at the start of the error buffer it was
    given, never beyond the buffer's end. *)
Definition write_error_buffer (buf text : string) : string :=
  std.take (String.length buf) (text +:+ std.drop (String.length text) buf).

(** What the network side does during one [curl_easy_perform]: the
    callbacks it drives, in order, the result code, the text it leaves in
    the error buffer and the HTTP status it saw. *)
Inductive transfer_event : Type :=
| deliver_header (data : string) (size nmemb : N)
| deliver_body (data : string) (size nmemb : N)
| request_upload (size nmemb : N).

Record transfer := {
  events : list transfer_event;
  result : CURLcode;
  error_text : string;
  status : Z
}.

(** What a verb holds after [curl_easy_perform]: the result code, its
    error buffer, its response record, its upload cursor if it has one,
    and the bytes the read callback handed over. *)
Record performed := {
  res_after : CURLcode;
  curlError_after : string;
  ret_after : response;
  up_obj_after : option upload_object;
  uploaded : string
}.

Definition set_this (f : HttpClient → HttpClient) (w : world) : world :=
  {| this := f (this w); curl_calls := curl_calls w; errlog := errlog w |}.

Definition record_call (c : curl_call) (w : world) : world :=
  {| this := this w; curl_calls := curl_calls w ++ [c]; errlog := errlog w |}.

Definition set_curl (h : CURL) (c : HttpClient) : HttpClient :=
  {| _user_pass := _user_pass c; _curl := h |}.

Definition curl_easy_setopt (o : curl_option) : M unit :=
  λ w, (Returned (),
        record_call (call_setopt o)
          (set_this (λ c, set_curl
             {| options := options (_curl c) ++ [o];
                info_response_code := info_response_code (_curl c) |} c) w)).

Definition curl_easy_getinfo_RESPONSE_CODE : M Z :=
  λ w, (Returned (info_response_code (_curl (this w))),
        record_call call_getinfo_RESPONSE_CODE w).

Definition curl_easy_reset : M unit :=
  λ w, (Returned (),
        record_call call_reset (set_this (set_curl curl_easy_init_handle) w)).

(** The callbacks registered by the verbs, driven by the events of one
    transfer. Upload requests reach [read_callback] only when the verb
    registered it together with an upload cursor. The two push callbacks
    report every chunk as consumed whole, so the transport never stops a
    transfer on their account and their return value is not looked at. *)
Fixpoint drive_callbacks (evs : list transfer_event) (r : response)
    (u : option upload_object) (sent : string)
  : response * option upload_object * string :=
  match evs with
  | [] => (r, u, sent)
  | deliver_header data size nmemb :: evs' =>
      drive_callbacks evs' (header_callback data size nmemb r).2 u sent
  | deliver_body data size nmemb :: evs' =>
      drive_callbacks evs' (write_callback data size nmemb r).2 u sent
  | request_upload size nmemb :: evs' =>
      match u with
      | Some up =>
          let '(copied, _, up') := read_callback size nmemb up in
          drive_callbacks evs' r (Some up') (sent +:+ copied)
      | None => drive_callbacks evs' r None sent
      end
  end.

(** [HttpClient::checkCurlError]: the flag returned, the error buffer and
    the response record after the call. *)
Definition checkCurlError (curl_easy_strerror : CURLcode → string)
    (res : CURLcode) (curlErrorBuffer : string) (ret : response)
  : bool * string * response :=
  if decide (CURLE_OK ≠ res) then
    let body := "Failed to query. CURL error: " in
    let body := body +:+ curl_easy_strerror res in
    let body := body +:+ " DETAIL: " in
    let curlErrorBuffer :=
      store_char curlErrorBuffer (CURL_ERROR_SIZE - 1) zero in
    let body := body +:+ std.c_str curlErrorBuffer in
    (true, curlErrorBuffer, response.mk (-1) body (response.headers ret))
  else (false, curlErrorBuffer, ret).

(** [HttpClient::user_agent] *)
Definition user_agent : string := "sopnet/0.10".

(** Modelled from the spec: [UTIL_THROW_EXCEPTION] and the exception type
    [NullPointer] ([util/exceptions.h]) are not among the sources. The
    specification has construction fail with a non-recoverable exception
    when no handle can be allocated: the macro throws the exception it
    names, carrying the message. *)
Definition UTIL_THROW_EXCEPTION {A} (e : string → exception) (what : string)
  : outcome A := Thrown (e what).

(** [HttpClient::HttpClient()], from what [curl_easy_init] returned. *)
Definition HttpClient_ctor (curl : option CURL) : outcome HttpClient :=
  match curl with
  | None => UTIL_THROW_EXCEPTION NullPointer "curl_easy_init returned NULL"
  | Some h => Returned {| _user_pass := ""; _curl := h |}
  end.

(** ** Authentication *)



Definition get_user_pass : M string := λ w, (Returned (_user_pass (this w)), w).

(** ** The verb methods and the JSON layer *)

Section Client.

(** [curl_easy_strerror], the network behind [curl_easy_perform], boost's
    [read_json] (an exception on the left, the decoded tree on the right)
    and the indeterminate value of the default-initialised [ret.code]. *)
Variable curl_easy_strerror : CURLcode → string.
Variable network : list curl_option → transfer.
Variable read_json : string → exception + ptree.
Variable indeterminate : Z.

Definition curl_easy_perform (curlError : string) (ret : response)
    (up : option upload_object) : M performed :=
  λ w,
    let h := _curl (this w) in
    let t := network (options h) in
    let '(r, u, sent) := drive_callbacks (events t) ret up "" in
    (Returned {| res_after := result t;
                 curlError_after :=
                   write_error_buffer curlError (error_text t);
                 ret_after := r; up_obj_after := u; uploaded := sent |},
     record_call (call_perform (options h))
       (set_this (set_curl {| options := options h;
                              info_response_code := status t |}) w)).

Definition get (url : string) : M response :=
  let ret := response.mk indeterminate "" ∅ in
  let curlError := zeros CURL_ERROR_SIZE in
  curl_easy_setopt CURLOPT_ERRORBUFFER;;
  user_pass ← get_user_pass;
  (if decide (0 < std.size user_pass) then
     curl_easy_setopt CURLOPT_HTTPAUTH_BASIC;;
     curl_easy_setopt (CURLOPT_USERPWD (std.c_str user_pass))
   else mret ());;
  curl_easy_setopt (CURLOPT_USERAGENT user_agent);;
  curl_easy_setopt (CURLOPT_URL (std.c_str url));;
  curl_easy_setopt CURLOPT_WRITEFUNCTION;;
  curl_easy_setopt CURLOPT_WRITEDATA;;
  curl_easy_setopt CURLOPT_HEADERFUNCTION;;
  curl_easy_setopt CURLOPT_HEADERDATA;;
  p ← curl_easy_perform curlError ret None;
  let '(failed, _, ret) :=
    checkCurlError curl_easy_strerror
      (res_after p) (curlError_after p) (ret_after p) in
  if failed then
    curl_easy_reset;;
    mret ret
  else
    http_code ← curl_easy_getinfo_RESPONSE_CODE;
    let ret := response.mk (static_cast_int http_code)
                 (response.body ret) (response.headers ret) in
    curl_easy_reset;;
    mret ret.

Definition post (url ctype data : string) : M response :=
  let ret := response.mk indeterminate "" ∅ in
  let ctype_header := "Content-Type: " +:+ ctype in
  let curlError := zeros CURL_ERROR_SIZE in
  curl_easy_setopt CURLOPT_ERRORBUFFER;;
  user_pass ← get_user_pass;
  (if decide (0 < std.size user_pass) then
     curl_easy_setopt CURLOPT_HTTPAUTH_BASIC;;
     curl_easy_setopt (CURLOPT_USERPWD (std.c_str user_pass))
   else mret ());;
  curl_easy_setopt (CURLOPT_USERAGENT user_agent);;
  curl_easy_setopt (CURLOPT_URL (std.c_str url));;
  curl_easy_setopt (CURLOPT_POST 1);;
  curl_easy_setopt (CURLOPT_POSTFIELDS data);;
  curl_easy_setopt (CURLOPT_POSTFIELDSIZE (std.size data));;
  curl_easy_setopt CURLOPT_WRITEFUNCTION;;
  curl_easy_setopt CURLOPT_WRITEDATA;;
  curl_easy_setopt CURLOPT_HEADERFUNCTION;;
  curl_easy_setopt CURLOPT_HEADERDATA;;
  curl_easy_setopt (CURLOPT_HTTPHEADER [std.c_str ctype_header]);;
  p ← curl_easy_perform curlError ret None;
  let '(failed, _, ret) :=
    checkCurlError curl_easy_strerror
      (res_after p) (curlError_after p) (ret_after p) in
  if failed then
    curl_easy_reset;;
    mret ret
  else
    http_code ← curl_easy_getinfo_RESPONSE_CODE;
    let ret := response.mk (static_cast_int http_code)
                 (response.body ret) (response.headers ret) in
    curl_easy_reset;;
    mret ret.

Definition put (url ctype data : string) : M response :=
  let ret := response.mk indeterminate "" ∅ in
  let ctype_header := "Content-Type: " +:+ ctype in
  let up_obj :=
    upload_object.mk {| mem := data +:+ String zero ""; pos := 0 |}
      (std.size data) in
  let curlError := zeros CURL_ERROR_SIZE in
  curl_easy_setopt CURLOPT_ERRORBUFFER;;
  user_pass ← get_user_pass;
  (if decide (0 < std.size user_pass) then
     curl_easy_setopt CURLOPT_HTTPAUTH_BASIC;;
     curl_easy_setopt (CURLOPT_USERPWD (std.c_str user_pass))
   else mret ());;
  curl_easy_setopt (CURLOPT_USERAGENT user_agent);;
  curl_easy_setopt (CURLOPT_URL (std.c_str url));;
  curl_easy_setopt (CURLOPT_PUT 1);;
  curl_easy_setopt (CURLOPT_UPLOAD 1);;
  curl_easy_setopt CURLOPT_READFUNCTION;;
  curl_easy_setopt CURLOPT_READDATA;;
  curl_easy_setopt CURLOPT_WRITEFUNCTION;;
  curl_easy_setopt CURLOPT_WRITEDATA;;
  curl_easy_setopt CURLOPT_HEADERFUNCTION;;
  curl_easy_setopt CURLOPT_HEADERDATA;;
  curl_easy_setopt
    (CURLOPT_INFILESIZE (static_cast_long (upload_object.length up_obj)));;
  curl_easy_setopt (CURLOPT_HTTPHEADER [std.c_str ctype_header]);;
  p ← curl_easy_perform curlError ret (Some up_obj);
  let '(failed, _, ret) :=
    checkCurlError curl_easy_strerror
      (res_after p) (curlError_after p) (ret_after p) in
  if failed then
    curl_easy_reset;;
    mret ret
  else
    http_code ← curl_easy_getinfo_RESPONSE_CODE;
    let ret := response.mk (static_cast_int http_code)
                 (response.body ret) (response.headers ret) in
    curl_easy_reset;;
    mret ret.

Definition del (url : string) : M response :=
  let ret := response.mk indeterminate "" ∅ in
  let http_delete := "DELETE" in
  let curlError := zeros CURL_ERROR_SIZE in
  curl_easy_setopt CURLOPT_ERRORBUFFER;;
  user_pass ← get_user_pass;
  (if decide (0 < std.size user_pass) then
     curl_easy_setopt CURLOPT_HTTPAUTH_BASIC;;
     curl_easy_setopt (CURLOPT_USERPWD (std.c_str user_pass))
   else mret ());;
  curl_easy_setopt (CURLOPT_USERAGENT user_agent);;
  curl_easy_setopt (CURLOPT_URL (std.c_str url));;
  curl_easy_setopt (CURLOPT_CUSTOMREQUEST http_delete);;
  curl_easy_setopt CURLOPT_WRITEFUNCTION;;
  curl_easy_setopt CURLOPT_WRITEDATA;;
  curl_easy_setopt CURLOPT_HEADERFUNCTION;;
  curl_easy_setopt CURLOPT_HEADERDATA;;
  p ← curl_easy_perform curlError ret None;
  let '(failed, _, ret) :=
    checkCurlError curl_easy_strerror
      (res_after p) (curlError_after p) (ret_after p) in
  if failed then
    curl_easy_reset;;
    mret ret
  else
    http_code ← curl_easy_getinfo_RESPONSE_CODE;
    let ret := response.mk (static_cast_int http_code)
                 (response.body ret) (response.headers ret) in
    curl_easy_reset;;
    mret ret.

Definition handleNon200 (res : response) (url : string) : M unit :=
  LOG_ERROR ("When trying url [" +:+ url +:+ "], received non-OK code "
             +:+ std.of_int (response.code res) +:+ endl).

(** [boost::property_tree::read_json(ss, *pt)] *)
Definition read_json_into (ss : string) : M ptree :=
  match read_json ss with
  | inl e => throw e
  | inr t => mret t
  end.

Definition parsePtree (res : response) (url : string) : M shared_ptr_ptree :=
  if decide (response.code res ≠ 200%Z) then
    let pt := boost.empty in
    handleNon200 res url;;
    let os := "Status " +:+ std.of_int (response.code res)
              +:+ " when getting " +:+ url in
    let pt := boost.put "error" os pt in
    mret (Some pt)
  else
    let ss := response.body res in
    pt ← try_catch_rethrow (read_json_into ss)
           (LOG_ERROR ("error reading result of URL:" +:+ endl
                       +:+ tab +:+ url +:+ endl);;
            LOG_ERROR ("response is:" +:+ endl
                       +:+ response.body res +:+ endl));
    mret (Some pt).

Definition getPropertyTree (url : string) : M shared_ptr_ptree :=
  res ← get url;
  parsePtree res url.

Definition postPropertyTree (url data : string) : M shared_ptr_ptree :=
  res ← post url "application/x-www-form-urlencoded" data;
  parsePtree res url.

End Client.

Definition ptreeHasChild (pt : shared_ptr_ptree) (childName : string) : M bool :=
  t ← deref pt;
  match boost.get_child_optional t childName with
  | None => mret false
  | Some _ => mret true
  end.

(** [pt->get_child(path)] *)
Definition get_child (pt : shared_ptr_ptree) (path : string) : M ptree :=
  t ← deref pt;
  match boost.get_child_optional t path with
  | None => throw (ptree_bad_path ("No such node (" +:+ path +:+ ")"))
  | Some c => mret c
  end.

(** [!pt] on a shared pointer. *)
Definition is_null {A} (p : option A) : bool :=
  match p with None => true | Some _ => false end.

Definition checkDjangoError (pt : shared_ptr_ptree) : M bool :=
  if is_null pt then
    LOG_ERROR ("JSON Error: null property tree" +:+ endl);;
    mret true
  else
    has_info ← ptreeHasChild pt "info";
    info_and_traceback ←
      (if (has_info : bool) then ptreeHasChild pt "traceback"
       else mret false);
    if (info_and_traceback : bool) then
      info ← get_child pt "info";
      LOG_ERROR ("Django error: " +:+ boost.get_value_string info +:+ endl);;
      traceback ← get_child pt "traceback";
      LOG_ERROR ("    traceback: " +:+ boost.get_value_string traceback
                 +:+ endl);;
      mret true
    else
      has_djerror ← ptreeHasChild pt "djerror";
      if (has_djerror : bool) then
        djerror ← get_child pt "djerror";
        LOG_ERROR ("Django error: " +:+ boost.get_value_string djerror
                   +:+ endl);;
        mret true
      else
        has_error ← ptreeHasChild pt "error";
        if (has_error : bool) then
          error ← get_child pt "error";
          LOG_ERROR ("HTTP Error: " +:+ boost.get_value_string error
                     +:+ endl);;
          mret true
        else mret false.

(** ** ptreeVector *)

Section PtreeVector.

(** The element type and boost's translator from the node's string to it
    ([translator_between<std::string, T>]); [get_value<T>()] throws
    [ptree_bad_data], built from the node's data, when the translator
    yields nothing. *)
Context {T : Type} (translator : string → option T).

Definition get_value (t : ptree) : exception + T :=
  match translator (boost.data t) with
  | Some x => inr x
  | None => inl (ptree_bad_data (boost.data t))
  end.

(** The range-for loop: the vector and the counter are threaded; an
    exception leaves the vector as far as it was filled. *)
Fixpoint ptreeVector_loop (l : list (string * ptree)) (vect : list T)
    (count : N) : outcome N * list T :=
  match l with
  | [] => (Returned count, vect)
  | v :: l' =>
      match get_value v.2 with
      | inl e => (Thrown e, vect)
      | inr x => ptreeVector_loop l' (vect ++ [x]) (uint_incr count)
      end
  end.

Definition ptreeVector (pt : ptree) (vect : list T) : outcome N * list T :=
  ptreeVector_loop (boost.children pt) vect 0.

End PtreeVector.

(** ** Vocabulary of the statements *)

(** The world after further lines went to the error log. *)
Definition logged (w : world) (lines : list string) : world :=
  {| this := this w; curl_calls := curl_calls w;
     errlog := errlog w ++ lines |}.

(** The first direct child of key [name], if the tree has one. *)
Definition first_child (t : ptree) (name : string) : option ptree :=
  boost.find name (boost.children t).

(** The tree [{"error": msg}]. *)
Definition error_tree (msg : string) : ptree :=
  boost.Node "" [("error", boost.Node msg [])].

(** ** Sample inputs of the examples *)

Definition fresh_world : world :=
  {| this := {| _user_pass := ""; _curl := curl_easy_init_handle |};
     curl_calls := []; errlog := [] |}.

(** What [read_json] builds from [{"a.b": "1"}]: the parser appends the
    key as it stands, without reading it as a path. *)
Definition dotted_key_tree : ptree := boost.Node "" [("a.b", boost.Node "1" [])].

(** What [read_json] builds from [{"a": {"b": "1"}}]. *)
Definition nested_tree : ptree :=
  boost.Node "" [("a", boost.Node "" [("b", boost.Node "1" [])])].

(** A stand-in decoder for the examples: it accepts the empty object and
    rejects everything else. *)
Definition sample_read_json (s : string) : exception + ptree :=
  if decide (s = "{}") then inr boost.empty
  else inl (json_parser_error "<unspecified file>(1): expected object").

Definition sample_strerror (c : CURLcode) : string :=
  if decide (c = 7%Z) then "Couldn't connect to server" else "Unknown error".

(** A server answering every request with the given status and body. *)
Definition answering (code : Z) (content : string) (_ : list curl_option)
  : transfer :=
  {| events := [deliver_header ("HTTP/1.1 " +:+ std.of_int code +:+ endl) 1
                  (std.size ("HTTP/1.1 " +:+ std.of_int code +:+ endl));
                deliver_body content 1 (std.size content)];
     result := CURLE_OK; error_text := ""; status := code |}.

(** A host refusing the connection ([CURLE_COULDNT_CONNECT]). *)
Definition refusing (_ : list curl_option) : transfer :=
  {| events := []; result := 7%Z;
     error_text := "Failed to connect to host port 80: Connection refused";
     status := 0%Z |}.

(** The four verb methods as one family, to state what holds of each. *)
Inductive request : Type :=
| GET (url : string)
| POST (url ctype data : string)
| PUT (url ctype data : string)
| DELETE (url : string).

Definition perform_request (curl_easy_strerror : CURLcode → string)
    (network : list curl_option → transfer) (indeterminate : Z)
    (r : request) : M response :=
  match r with
  | GET url => get curl_easy_strerror network indeterminate url
  | POST url ctype data =>
      post curl_easy_strerror network indeterminate url ctype data
  | PUT url ctype data =>
      put curl_easy_strerror network indeterminate url ctype data
  | DELETE url => del curl_easy_strerror network indeterminate url
  end.

(** Requests issued one after the other on the same client. *)
Fixpoint perform_requests (curl_easy_strerror : CURLcode → string)
    (network : list curl_option → transfer) (indeterminate : Z)
    (rs : list request) : M (list response) :=
  match rs with
  | [] => mret []
  | r :: rs' =>
      x ← perform_request curl_easy_strerror network indeterminate r;
      xs ← perform_requests curl_easy_strerror network indeterminate rs';
      mret (x :: xs)
  end.

(** The authentication options a verb sets for a credential string. *)
Definition auth_options (user_pass : string) : list curl_option :=
  if decide (0 < std.size user_pass)
  then [CURLOPT_HTTPAUTH_BASIC; CURLOPT_USERPWD (std.c_str user_pass)]
  else [].

(** The options a verb sets, in the order of its [curl_easy_setopt] calls. *)
Definition request_options (user_pass : string) (r : request)
  : list curl_option :=
  CURLOPT_ERRORBUFFER :: auth_options user_pass ++
  [CURLOPT_USERAGENT user_agent] ++
  match r with
  | GET url =>
      [CURLOPT_URL (std.c_str url);
       CURLOPT_WRITEFUNCTION; CURLOPT_WRITEDATA;
       CURLOPT_HEADERFUNCTION; CURLOPT_HEADERDATA]
  | POST url ctype data =>
      [CURLOPT_URL (std.c_str url);
       CURLOPT_POST 1; CURLOPT_POSTFIELDS data;
       CURLOPT_POSTFIELDSIZE (std.size data);
       CURLOPT_WRITEFUNCTION; CURLOPT_WRITEDATA;
       CURLOPT_HEADERFUNCTION; CURLOPT_HEADERDATA;
       CURLOPT_HTTPHEADER [std.c_str ("Content-Type: " +:+ ctype)]]
  | PUT url ctype data =>
      [CURLOPT_URL (std.c_str url);
       CURLOPT_PUT 1; CURLOPT_UPLOAD 1;
       CURLOPT_READFUNCTION; CURLOPT_READDATA;
       CURLOPT_WRITEFUNCTION; CURLOPT_WRITEDATA;
       CURLOPT_HEADERFUNCTION; CURLOPT_HEADERDATA;
       CURLOPT_INFILESIZE (static_cast_long (std.size data));
       CURLOPT_HTTPHEADER [std.c_str ("Content-Type: " +:+ ctype)]]
  | DELETE url =>
      [CURLOPT_URL (std.c_str url);
       CURLOPT_CUSTOMREQUEST "DELETE";
       CURLOPT_WRITEFUNCTION; CURLOPT_WRITEDATA;
       CURLOPT_HEADERFUNCTION; CURLOPT_HEADERDATA]
  end.

(** The configuration of the handle when the verb calls
    [curl_easy_perform]. *)
Definition configured (c : HttpClient) (r : request) : list curl_option :=
  options (_curl c) ++ request_options (_user_pass c) r.

(** The upload cursor of the verb, if it has one. *)
Definition upload_cursor (r : request) : option upload_object :=
  match r with
  | PUT _ _ data =>
      Some (upload_object.mk {| mem := data +:+ String zero ""; pos := 0 |}
              (std.size data))
  | _ => None
  end.

(** The configurations recorded for the [curl_easy_perform] calls. *)
Fixpoint performs (calls : list curl_call) : list (list curl_option) :=
  match calls with
  | [] => []
  | call_perform opts :: calls' => opts :: performs calls'
  | _ :: calls' => performs calls'
  end.


(** The response a verb returns for a transfer and what the callbacks
    made of [ret] during it. *)
Definition verb_response (curl_easy_strerror : CURLcode → string)
    (t : transfer) (r : response) : response :=
  if decide (CURLE_OK ≠ result t) then
    response.mk (-1)
      ((("Failed to query. CURL error: " +:+ curl_easy_strerror (result t))
        +:+ " DETAIL: ")
       +:+ std.c_str
             (store_char
                (write_error_buffer (zeros CURL_ERROR_SIZE) (error_text t))
                (CURL_ERROR_SIZE - 1) zero))
      (response.headers r)
  else
    response.mk (static_cast_int (status t)) (response.body r)
      (response.headers r).

(** The bytes an upload cursor still has to hand over. *)
Definition remaining (u : upload_object) : string :=
  memcpy (upload_object.data u) (upload_object.length u).

(** The cursor lies within its buffer, and the buffer within the address
    space: [u->data .. u->data + u->length) is readable memory. *)
Definition cursor_valid (u : upload_object) : Prop :=
  pos (upload_object.data u) + upload_object.length u
    ≤ std.size (mem (upload_object.data u)) ∧
  std.size (mem (upload_object.data u)) < SIZE_MAX_plus_1.

(** A sequence of calls by which the transport asks for body bytes, each
    given by its [size] and [nmemb]. *)
Definition upload_requests (reqs : list (N * N)) : list transfer_event :=
  (λ q, request_upload q.1 q.2) <$> reqs.

(** The bytes asked for by the whole sequence. *)
Fixpoint requested (reqs : list (N * N)) : N :=
  match reqs with
  | [] => 0
  | q :: reqs' => size_t_mul q.1 q.2 + requested reqs'
  end.

(** What [read_json] builds from an array of [n] equal scalars: [n]
    children with empty keys. *)
Definition uniform_array (n : nat) (value : string) : ptree :=
  boost.Node "" (replicate n ("", boost.Node value [])).

(** The translator of [T = std::string]. *)
Definition id_translator (s : string) : option string := Some s.

(** A stand-in for the stream translator of an unsigned type in the
    examples: a non-empty run of decimal digits. *)
Fixpoint read_digits (s : string) (acc : N) : option N :=
  match s with
  | "" => Some acc
  | String c s' =>
      let d := N_of_ascii c in
      if (48 <=? d) && (d <=? 57) then read_digits s' (acc * 10 + (d - 48))
      else None
  end.

Definition digits_translator (s : string) : option N :=
  match s with "" => None | _ => read_digits s 0 end.

(** What [read_json] builds from [[1,2,3]]. *)
Definition array_1_2_3 : ptree :=
  boost.Node "" [("", boost.Node "1" []); ("", boost.Node "2" []);
                 ("", boost.Node "3" [])].

(** Every child of the list coerces: [xs] are the coerced values, in
    child order. *)
Definition coerced {T : Type} (translator : string → option T)
    (l : list (string * ptree)) (xs : list T) : Prop :=
  Forall2 (λ v x, translator (boost.data v.2) = Some x) l xs.

(** Every character of the string is white space. *)
Fixpoint all_space (s : string) : bool :=
  match s with
  | "" => true
  | String c s' => std.isspace c && all_space s'
  end.

(** The string does not begin, respectively end, with white space. *)
Definition starts_clean (s : string) : Prop :=
  match s with "" => True | String c _ => std.isspace c = false end.

Definition ends_clean (s : string) : Prop := starts_clean (String.rev s).

(** [t] is [s] without its leading and trailing white space. *)
Definition trimmed_of (s t : string) : Prop :=
  ∃ l r, s = l +:+ t +:+ r ∧ all_space l = true ∧ all_space r = true ∧
         starts_clean t ∧ ends_clean t.

(** The bytes a transfer delivers as body, in order of delivery. *)
Fixpoint body_chunks (evs : list transfer_event) : string :=
  match evs with
  | [] => ""
  | deliver_body data size nmemb :: evs' =>
      std.of_buffer data (size_t_mul size nmemb) +:+ body_chunks evs'
  | _ :: evs' => body_chunks evs'
  end.

(** Body chunks as the transport hands them over, each with its [size]
    and [nmemb], and the chunks whose data is [size * nmemb] bytes long. *)
Definition deliveries (chunks : list (string * N * N)) : list transfer_event :=
  (λ c, deliver_body c.1.1 c.1.2 c.2) <$> chunks.

Definition exact_chunk (c : string * N * N) : Prop :=
  std.size c.1.1 = size_t_mul c.1.2 c.2.

Fixpoint join (l : list string) : string :=
  match l with
  | [] => ""
  | s :: l' => s +:+ join l'
  end.

(** A server answering like [answering], the connection breaking after
    the last chunk ([CURLE_RECV_ERROR]). *)
Definition interrupted (code : Z) (content : string) (opts : list curl_option)
  : transfer :=
  {| events := events (answering code content opts); result := 56%Z;
     error_text := "Recv failure: Connection reset by peer"; status := code |}.

(** * Properties *)

(** Unfolding of the monad's plumbing. *)
Ltac run_M :=
  unfold mbind, mret, M_bind, M_ret, bind_M, ret_M, throw,
    null_dereference, deref; cbn.

(** ** Strings *)

Lemma str_app_nil_l (s : string) : "" +:+ s = s.
Proof. reflexivity. Qed.

Lemma str_app_cons (c : ascii) (s t : string) :
  String c s +:+ t = String c (s +:+ t).
Proof. reflexivity. Qed.

Lemma str_app_nil_r (s : string) : s +:+ "" = s.
Proof. induction s as [|c s IH]; [done|]. by rewrite str_app_cons, IH. Qed.

Lemma str_app_assoc (s t u : string) : (s +:+ t) +:+ u = s +:+ t +:+ u.
Proof. induction s as [|c s IH]; [done|]. by rewrite !str_app_cons, IH. Qed.

Lemma str_length_app (s t : string) :
  String.length (s +:+ t) = (String.length s + String.length t)%nat.
Proof. induction s as [|c s IH]; [done|]. rewrite str_app_cons. simpl. by rewrite IH. Qed.

Lemma str_rev_app_spec (s t : string) : String.rev_app s t = String.rev s +:+ t.
Proof.
  revert t. induction s as [|c s IH]; intros t; [done|].
  unfold String.rev. simpl. rewrite (IH (String c "")), IH.
  by rewrite str_app_assoc.
Qed.

Lemma str_rev_cons (c : ascii) (s : string) :
  String.rev (String c s) = String.rev s +:+ String c "".
Proof. unfold String.rev at 1. simpl. apply str_rev_app_spec. Qed.

Lemma str_rev_app_distr (s t : string) :
  String.rev (s +:+ t) = String.rev t +:+ String.rev s.
Proof.
  induction s as [|c s IH]; [by rewrite str_app_nil_l, str_app_nil_r|].
  by rewrite str_app_cons, !str_rev_cons, IH, str_app_assoc.
Qed.

Lemma str_rev_involutive (s : string) : String.rev (String.rev s) = s.
Proof.
  induction s as [|c s IH]; [done|].
  by rewrite str_rev_cons, str_rev_app_distr, IH.
Qed.

Lemma str_take_app_length (s t : string) : std.take (String.length s) (s +:+ t) = s.
Proof. induction s as [|c s IH]; [by destruct t|]. rewrite str_app_cons. simpl. by rewrite IH. Qed.

Lemma str_drop_app_length (s t : string) : std.drop (String.length s) (s +:+ t) = t.
Proof. induction s as [|c s IH]; [by destruct t|]. rewrite str_app_cons. simpl. by rewrite IH. Qed.

Lemma str_take_drop (n : nat) (s : string) : std.take n s +:+ std.drop n s = s.
Proof.
  revert s. induction n as [|n IH]; intros [|c s]; try done.
  simpl. by rewrite str_app_cons, IH.
Qed.

Lemma str_take_all (n : nat) (s : string) :
  (String.length s ≤ n)%nat → std.take n s = s.
Proof.
  revert s. induction n as [|n IH]; intros [|c s] Hn; simpl in *; try done; [lia|].
  rewrite IH; [done|lia].
Qed.

Lemma str_length_take (n : nat) (s : string) :
  String.length (std.take n s) = (n `min` String.length s)%nat.
Proof.
  revert s. induction n as [|n IH]; intros [|c s]; simpl; try done.
  by rewrite IH.
Qed.

Lemma str_take_take (n m : nat) (s : string) :
  std.take n (std.take m s) = std.take (n `min` m) s.
Proof.
  revert m s. induction n as [|n IH]; intros [|m] [|c s]; simpl; try done.
  by rewrite IH.
Qed.

Lemma str_drop_drop (n m : nat) (s : string) :
  std.drop n (std.drop m s) = std.drop (m + n) s.
Proof.
  revert s. induction m as [|m IH]; intros s; [done|].
  destruct s as [|c s]; simpl; [by destruct n|]. apply IH.
Qed.

Lemma str_take_app_drop (n m : nat) (s : string) :
  std.take n s +:+ std.take m (std.drop n s) = std.take (n + m) s.
Proof.
  revert s. induction n as [|n IH]; intros s; simpl.
  - by destruct s.
  - destruct s as [|c s]; simpl; [by destruct m|]. by rewrite str_app_cons, IH.
Qed.

(** ** Property trees *)

Lemma find_Some_elem {A} (key : string) (l : list (string * A)) (c : A) :
  boost.find key l = Some c → (key, c) ∈ l.
Proof.
  induction l as [|[k c'] l IH]; simpl; [done|].
  destruct (decide (k = key)) as [->|].
  - intros [= ->]. apply list_elem_of_here.
  - intros H. apply list_elem_of_further; auto.
Qed.

Lemma find_None_notin {A} (key : string) (l : list (string * A)) :
  boost.find key l = None → ∀ c, (key, c) ∉ l.
Proof.
  induction l as [|[k c'] l IH]; simpl; intros H c Hin.
  - by apply not_elem_of_nil in Hin.
  - destruct (decide (k = key)) as [->|]; [done|].
    apply elem_of_cons in Hin as [[=]|Hin]; [congruence|]. by eapply IH.
Qed.

Lemma find_is_Some_direct_child (t : ptree) (name : string) :
  is_Some (boost.find name (boost.children t)) ↔ boost.has_direct_child t name.
Proof.
  unfold boost.has_direct_child. split.
  - intros [c Hc]. exists c. by apply find_Some_elem.
  - intros [c Hc]. destruct (boost.find name (boost.children t)) eqn:E; [done|].
    by apply find_None_notin with (c := c) in E.
Qed.

Lemma fragments_from_no_separator (cur s : string) :
  std.mem_char "." s = false →
  boost.fragments_from cur s = [String.rev cur +:+ s].
Proof.
  revert cur. induction s as [|c s IH]; intros cur; simpl.
  - intros _. by rewrite str_app_nil_r.
  - destruct (decide ("."%char = c)) as [<-|Hc]; [done|]. intros Hs.
    destruct (decide (c = "."%char)); [congruence|].
    rewrite IH by done. by rewrite str_rev_cons, str_app_assoc.
Qed.

(** A non-empty name without separator is a path of one fragment. *)
Lemma path_fragments_plain (name : string) :
  name ≠ "" → std.mem_char "." name = false →
  boost.path_fragments name = [name].
Proof.
  intros Hne Hsep. unfold boost.path_fragments.
  destruct name as [|c s]; [done|].
  by rewrite fragments_from_no_separator.
Qed.

Lemma get_child_optional_plain (t : ptree) (name : string) :
  name ≠ "" → std.mem_char "." name = false →
  boost.get_child_optional t name = boost.find name (boost.children t).
Proof.
  intros Hne Hsep. unfold boost.get_child_optional.
  rewrite path_fragments_plain by done. simpl.
  by destruct (boost.find name (boost.children t)).
Qed.

Lemma logged_nil (w : world) : logged w [] = w.
Proof. destruct w. unfold logged. simpl. by rewrite app_nil_r. Qed.

Lemma logged_logged (w : world) (l1 l2 : list string) :
  logged (logged w l1) l2 = logged w (l1 ++ l2).
Proof. unfold logged. simpl. by rewrite <-(assoc_L (++)). Qed.

Lemma LOG_ERROR_logged (text : string) (w : world) :
  LOG_ERROR text w = (Returned (), logged w [text]).
Proof. reflexivity. Qed.

Lemma ptreeHasChild_non_null (t : ptree) (childName : string) (w : world) :
  ptreeHasChild (Some t) childName w =
  (Returned (bool_decide (is_Some (boost.get_child_optional t childName))), w).
Proof.
  unfold ptreeHasChild. run_M.
  by destruct (boost.get_child_optional t childName).
Qed.

Lemma get_child_found (t c : ptree) (path : string) (w : world) :
  boost.get_child_optional t path = Some c →
  get_child (Some t) path w = (Returned c, w).
Proof. intros H. unfold get_child. run_M. by rewrite H. Qed.

Lemma first_child_is_Some (t : ptree) (name : string) :
  is_Some (first_child t name) ↔ boost.has_direct_child t name.
Proof. apply find_is_Some_direct_child. Qed.

(** ** ptreeHasChild *)

(** C6, as amended: for a non-null tree and a name that is not empty and
    holds no path separator ['.'], [ptreeHasChild] returns normally, leaves
    the world as it was, and answers true exactly when the name is the key
    of a direct child of the tree. *)
Theorem ptreeHasChild_iff_direct_child (t : ptree) (name : string) (w : world) :
  name ≠ "" → std.mem_char "." name = false →
  ∃ b, ptreeHasChild (Some t) name w = (Returned b, w) ∧
       (b = true ↔ boost.has_direct_child t name).
Proof.
  intros Hne Hsep. eexists. split; [apply ptreeHasChild_non_null|].
  rewrite get_child_optional_plain by done.
  rewrite bool_decide_eq_true. apply find_is_Some_direct_child.
Qed.

Lemma ptreeHasChild_iff_direct_child_witness :
  ∃ b, ptreeHasChild (Some (error_tree "x")) "error" fresh_world
       = (Returned b, fresh_world) ∧
       (b = true ↔ boost.has_direct_child (error_tree "x") "error").
Proof.
  apply (ptreeHasChild_iff_direct_child (error_tree "x") "error" fresh_world);
    [discriminate | reflexivity].
Defined.

(** C6 as stated fails: the name is read as a path. A direct child whose
    key holds a separator is not found; a grandchild reached by the path
    is; and the empty name, the path to the tree itself, is always
    answered with true. *)
Lemma ptreeHasChild_path_counterexample :
  (boost.has_direct_child dotted_key_tree "a.b" ∧
   ptreeHasChild (Some dotted_key_tree) "a.b" fresh_world
   = (Returned false, fresh_world)) ∧
  (¬ boost.has_direct_child nested_tree "a.b" ∧
   ptreeHasChild (Some nested_tree) "a.b" fresh_world
   = (Returned true, fresh_world)) ∧
  (¬ boost.has_direct_child boost.empty "" ∧
   ptreeHasChild (Some boost.empty) "" fresh_world
   = (Returned true, fresh_world)).
Proof.
  repeat split; try reflexivity.
  - exists (boost.Node "1" []). apply list_elem_of_here.
  - intros [c Hc]. apply list_elem_of_singleton in Hc. discriminate.
  - intros [c Hc]. by apply not_elem_of_nil in Hc.
Qed.

(** C10: [ptreeHasChild] dereferences its pointer before anything else, so
    a null tree runs into the null dereference, for every name, while every
    non-null tree gets a Boolean answer; [checkDjangoError] tests the
    pointer first and answers a null tree with a normal return of true. *)
Theorem ptreeHasChild_null_dereference (childName : string) (w : world) :
  ptreeHasChild None childName w = (NullDereference, w) ∧
  (∀ t, ∃ b, ptreeHasChild (Some t) childName w = (Returned b, w)) ∧
  (checkDjangoError None w).1 = Returned true.
Proof.
  split; [reflexivity|]. split; [|reflexivity].
  intros t. eexists. apply ptreeHasChild_non_null.
Qed.

(** ** checkDjangoError *)

Lemma ptreeHasChild_plain (t : ptree) (name : string) (w : world) :
  name ≠ "" → std.mem_char "." name = false →
  ptreeHasChild (Some t) name w
  = (Returned (bool_decide (is_Some (first_child t name))), w).
Proof.
  intros. rewrite ptreeHasChild_non_null.
  by rewrite get_child_optional_plain.
Qed.

Lemma get_child_plain (t c : ptree) (name : string) (w : world) :
  name ≠ "" → std.mem_char "." name = false →
  first_child t name = Some c →
  get_child (Some t) name w = (Returned c, w).
Proof.
  intros ?? Hc. apply get_child_found. by rewrite get_child_optional_plain.
Qed.

Local Arguments ptreeHasChild : simpl never.
Local Arguments get_child : simpl never.
Local Arguments LOG_ERROR : simpl never.
Local Arguments logged : simpl never.

(** C4: a null tree is logged and answered with true. Otherwise the
    shapes are tried in the order [info] with [traceback], then [djerror],
    then [error]; the first one present decides: its children's values are
    logged and true is returned, whatever the later shapes are. With none
    present the answer is false and nothing is logged. No branch throws.
    "Present" is [first_child], i.e. [boost.has_direct_child] by
    [first_child_is_Some]. *)
Theorem checkDjangoError_priority (pt : shared_ptr_ptree) (w : world) :
  match pt with
  | None =>
      checkDjangoError pt w
      = (Returned true, logged w ["JSON Error: null property tree" +:+ endl])
  | Some t =>
      match first_child t "info", first_child t "traceback",
            first_child t "djerror", first_child t "error" with
      | Some info, Some traceback, _, _ =>
          checkDjangoError pt w
          = (Returned true,
             logged w ["Django error: " +:+ boost.data info +:+ endl;
                       "    traceback: " +:+ boost.data traceback +:+ endl])
      | _, _, Some djerror, _ =>
          checkDjangoError pt w
          = (Returned true,
             logged w ["Django error: " +:+ boost.data djerror +:+ endl])
      | _, _, None, Some error =>
          checkDjangoError pt w
          = (Returned true,
             logged w ["HTTP Error: " +:+ boost.data error +:+ endl])
      | _, _, None, None => checkDjangoError pt w = (Returned false, w)
      end
  end.
Proof.
  destruct pt as [t|]; [|reflexivity].
  destruct (first_child t "info") as [info|] eqn:Hinfo;
    destruct (first_child t "traceback") as [traceback|] eqn:Htraceback;
    destruct (first_child t "djerror") as [djerror|] eqn:Hdjerror;
    destruct (first_child t "error") as [error|] eqn:Herror;
    unfold checkDjangoError; cbn [is_null];
    unfold mbind, mret, M_bind, M_ret, bind_M, ret_M;
    repeat (first
      [ rewrite ptreeHasChild_plain by done
      | erewrite get_child_plain by (done || eassumption)
      | rewrite LOG_ERROR_logged
      | rewrite logged_logged
      | rewrite Hinfo | rewrite Htraceback
      | rewrite Hdjerror | rewrite Herror ]; cbn);
    reflexivity.
Qed.

(** ** parsePtree, getPropertyTree, postPropertyTree *)

Section JsonLayer.

Variable curl_easy_strerror : CURLcode → string.
Variable network : list curl_option → transfer.
Variable read_json : string → exception + ptree.
Variable indeterminate : Z.

Lemma getPropertyTree_parses (url : string) (w0 w : world) (res : response) :
  get curl_easy_strerror network indeterminate url w0 = (Returned res, w) →
  getPropertyTree curl_easy_strerror network read_json indeterminate url w0
  = parsePtree read_json res url w.
Proof.
  intros Hget. unfold getPropertyTree, mbind, M_bind, bind_M.
  by rewrite Hget.
Qed.

Lemma postPropertyTree_parses (url data : string) (w0 w : world)
    (res : response) :
  post curl_easy_strerror network indeterminate url
    "application/x-www-form-urlencoded" data w0 = (Returned res, w) →
  postPropertyTree curl_easy_strerror network read_json indeterminate url data w0
  = parsePtree read_json res url w.
Proof.
  intros Hpost. unfold postPropertyTree, mbind, M_bind, bind_M.
  by rewrite Hpost.
Qed.

(** C2: for a response whose status is not 200, [parsePtree] logs the
    failure through [handleNon200] and returns normally the tree holding
    nothing but the key [error] with the text "Status <code> when getting
    <url>"; the body of the response does not enter the result. The same
    is the result of [getPropertyTree] and [postPropertyTree] whenever
    their request returned that response. *)
Theorem parsePtree_non_200 (res : response) (url : string) (w : world) :
  response.code res ≠ 200%Z →
  let answer : outcome shared_ptr_ptree * world :=
    (Returned (Some (error_tree
       ("Status " +:+ std.of_int (response.code res)
        +:+ " when getting " +:+ url))),
     logged w ["When trying url [" +:+ url +:+ "], received non-OK code "
               +:+ std.of_int (response.code res) +:+ endl]) in
  parsePtree read_json res url w = answer ∧
  (∀ w0,
     get curl_easy_strerror network indeterminate url w0 = (Returned res, w) →
     getPropertyTree curl_easy_strerror network read_json indeterminate url w0
     = answer) ∧
  (∀ data w0,
     post curl_easy_strerror network indeterminate url
       "application/x-www-form-urlencoded" data w0 = (Returned res, w) →
     postPropertyTree curl_easy_strerror network read_json indeterminate
       url data w0 = answer).
Proof.
  intros Hcode answer.
  assert (parsePtree read_json res url w = answer) as Hparse.
  { unfold parsePtree. destruct (decide (response.code res ≠ 200%Z)); [|done].
    reflexivity. }
  split; [done|]. split.
  - intros w0 Hget. by rewrite (getPropertyTree_parses _ _ _ _ Hget).
  - intros data w0 Hpost. by rewrite (postPropertyTree_parses _ _ _ _ _ Hpost).
Qed.

(** C3: for a response of status 200, [parsePtree] hands the body to the
    JSON reader. If the reader throws, the URL and the raw body are
    logged, in this order, and the very exception is thrown on to the
    caller; if it decodes the body, the decoded tree is returned and
    nothing is logged. The same is the result of [getPropertyTree] and
    [postPropertyTree] whenever their request returned that response. *)
Theorem parsePtree_200 (res : response) (url : string) (w : world) :
  response.code res = 200%Z →
  let answer : outcome shared_ptr_ptree * world :=
    match read_json (response.body res) with
    | inl e =>
        (Thrown e,
         logged w ["error reading result of URL:" +:+ endl
                   +:+ tab +:+ url +:+ endl;
                   "response is:" +:+ endl +:+ response.body res +:+ endl])
    | inr t => (Returned (Some t), w)
    end in
  parsePtree read_json res url w = answer ∧
  (∀ w0,
     get curl_easy_strerror network indeterminate url w0 = (Returned res, w) →
     getPropertyTree curl_easy_strerror network read_json indeterminate url w0
     = answer) ∧
  (∀ data w0,
     post curl_easy_strerror network indeterminate url
       "application/x-www-form-urlencoded" data w0 = (Returned res, w) →
     postPropertyTree curl_easy_strerror network read_json indeterminate
       url data w0 = answer).
Proof.
  intros Hcode answer.
  assert (parsePtree read_json res url w = answer) as Hparse.
  { unfold parsePtree. destruct (decide (response.code res ≠ 200%Z)); [done|].
    unfold answer, mbind, mret, M_bind, M_ret, bind_M, ret_M,
      try_catch_rethrow, read_json_into, throw.
    destruct (read_json (response.body res)) as [e|t]; [|reflexivity].
    rewrite !LOG_ERROR_logged. cbn. by rewrite logged_logged. }
  split; [done|]. split.
  - intros w0 Hget. by rewrite (getPropertyTree_parses _ _ _ _ Hget).
  - intros data w0 Hpost. by rewrite (postPropertyTree_parses _ _ _ _ _ Hpost).
Qed.

End JsonLayer.

Lemma parsePtree_non_200_witness :
  getPropertyTree sample_strerror (answering 500 "oops") sample_read_json 0
    "http://host/x" fresh_world
  = (Returned (Some (error_tree "Status 500 when getting http://host/x")),
     logged
       (get sample_strerror (answering 500 "oops") 0 "http://host/x"
          fresh_world).2
       ["When trying url [http://host/x], received non-OK code 500"
        +:+ endl]).
Proof.
  destruct (get sample_strerror (answering 500 "oops") 0 "http://host/x"
              fresh_world) as [o w] eqn:Hget.
  destruct o as [res| |]; try (vm_compute in Hget; discriminate).
  assert (response.code res = 500%Z) as Hcode.
  { vm_compute in Hget. by injection Hget as <- _. }
  destruct (parsePtree_non_200 sample_strerror (answering 500 "oops")
              sample_read_json 0 res "http://host/x" w) as (_ & Hvia_get & _).
  { rewrite Hcode. discriminate. }
  rewrite (Hvia_get fresh_world Hget). by rewrite Hcode.
Defined.

Lemma parsePtree_200_witness :
  (getPropertyTree sample_strerror (answering 200 "oops") sample_read_json 0
     "http://host/x" fresh_world).1
  = Thrown (json_parser_error "<unspecified file>(1): expected object") ∧
  (getPropertyTree sample_strerror (answering 200 "{}") sample_read_json 0
     "http://host/x" fresh_world).1
  = Returned (Some boost.empty).
Proof.
  split.
  - destruct (get sample_strerror (answering 200 "oops") 0 "http://host/x"
                fresh_world) as [o w] eqn:Hget.
    destruct o as [res| |]; try (vm_compute in Hget; discriminate).
    assert (response.code res = 200%Z ∧ response.body res = "oops")
      as [Hcode Hbody].
    { vm_compute in Hget. by injection Hget as <- _. }
    destruct (parsePtree_200 sample_strerror (answering 200 "oops")
                sample_read_json 0 res "http://host/x" w Hcode)
      as (_ & Hvia_get & _).
    rewrite (Hvia_get fresh_world Hget), Hbody. reflexivity.
  - destruct (get sample_strerror (answering 200 "{}") 0 "http://host/x"
                fresh_world) as [o w] eqn:Hget.
    destruct o as [res| |]; try (vm_compute in Hget; discriminate).
    assert (response.code res = 200%Z ∧ response.body res = "{}")
      as [Hcode Hbody].
    { vm_compute in Hget. by injection Hget as <- _. }
    destruct (parsePtree_200 sample_strerror (answering 200 "{}")
                sample_read_json 0 res "http://host/x" w Hcode)
      as (_ & Hvia_get & _).
    rewrite (Hvia_get fresh_world Hget), Hbody. reflexivity.
Defined.

(** ** The verb methods *)

Local Arguments zeros : simpl never.
Local Arguments write_error_buffer : simpl never.
Local Arguments store_char : simpl never.
Local Arguments std.c_str : simpl never.
Local Arguments drive_callbacks : simpl never.
Local Arguments static_cast_int : simpl never.
Local Arguments static_cast_long : simpl never.
Local Arguments std.size : simpl never.

Section Verbs.

Variable curl_easy_strerror : CURLcode → string.
Variable network : list curl_option → transfer.
Variable indeterminate : Z.

Lemma perform_request_run (r : request) (w : world) :
  let opts := configured (this w) r in
  let t := network opts in
  perform_request curl_easy_strerror network indeterminate r w =
  (Returned
     (verb_response curl_easy_strerror t
        (drive_callbacks (events t) (response.mk indeterminate "" ∅)
           (upload_cursor r) "").1.1),
   {| this := {| _user_pass := _user_pass (this w);
                 _curl := curl_easy_init_handle |};
      curl_calls :=
        curl_calls w
        ++ (call_setopt <$> request_options (_user_pass (this w)) r)
        ++ call_perform opts
        :: (if decide (CURLE_OK ≠ result t) then []
            else [call_getinfo_RESPONSE_CODE])
        ++ [call_reset];
      errlog := errlog w |}).
Proof.
  destruct w as [[user_pass [opts0 info0]] calls0 log0].
  destruct r;
    cbv beta iota zeta delta [perform_request get post put del
      mbind mret M_bind M_ret bind_M ret_M curl_easy_setopt
      get_user_pass curl_easy_perform curl_easy_getinfo_RESPONSE_CODE
      curl_easy_reset record_call set_this set_curl
      configured request_options auth_options verb_response checkCurlError
      upload_cursor upload_object.length
      this curl_calls errlog _user_pass _curl options info_response_code];
    destruct (decide (0 < std.size user_pass));
    rewrite <- ?(assoc_L (++)); cbn [fmap list_fmap app];
    match goal with
    | |- context [drive_callbacks ?e ?r ?u ?s] =>
        destruct (drive_callbacks e r u s) as [[r' u'] sent]
    end;
    cbv beta iota zeta delta [res_after curlError_after ret_after fst snd];
    match goal with
    | |- context [decide (CURLE_OK ≠ ?x)] => destruct (decide (CURLE_OK ≠ x))
    end;
    cbn [fmap list_fmap app]; rewrite <- ?(assoc_L (++));
    reflexivity.
Qed.

Lemma performs_app (a b : list curl_call) :
  performs (a ++ b) = performs a ++ performs b.
Proof.
  induction a as [|c a IH]; [done|].
  destruct c; simpl; by rewrite ?IH.
Qed.

Lemma performs_setopt (l : list curl_option) : performs (call_setopt <$> l) = [].
Proof. induction l as [|o l IH]; [done|]. simpl. apply IH. Qed.

Lemma getinfo_not_setopt (l : list curl_option) :
  call_getinfo_RESPONSE_CODE ∉ call_setopt <$> l.
Proof.
  intros Hin. apply list_elem_of_fmap in Hin as (o & Ho & _). discriminate.
Qed.

(** The text [checkCurlError] appends from the error buffer: what the
    transport wrote, read as a C string and cut before the last byte of
    the buffer. *)
Lemma error_buffer_detail (n : nat) (text : string) :
  std.c_str (store_char (write_error_buffer (zeros (S n)) text) n zero)
  = std.c_str (std.take n text).
Proof.
  unfold write_error_buffer.
  assert (∀ k, String.length (zeros k) = k) as Hlen.
  { induction k as [|k IH]; [done|].
    change (zeros (S k)) with (String zero (zeros k)).
    cbn [String.length]. by rewrite IH. }
  rewrite Hlen. revert text. induction n as [|n IH]; intros text.
  - destruct text as [|c text]; reflexivity.
  - destruct text as [|c text].
    + reflexivity.
    + rewrite str_app_cons.
      change (std.take (S (S n)) (String c ?x)) with (String c (std.take (S n) x)).
      change (std.drop (String.length (String c text)) (zeros (S (S n))))
        with (std.drop (String.length text) (zeros (S n))).
      change (store_char (String c ?x) (S n) zero)
        with (String c (store_char x n zero)).
      change (std.take (S n) (String c text)) with (String c (std.take n text)).
      change (std.c_str (String c ?x))
        with (if decide (c = zero) then "" else String c (std.c_str x)).
      destruct (decide (c = zero)); [done|]. by rewrite IH.
Qed.

(** C1, as amended: for each of the four verbs, when the transfer it
    performs does not end in [CURLE_OK], the verb returns normally (nothing
    is thrown) a response whose code is -1 and whose body is
    "Failed to query. CURL error: ", the stock description of the result
    code, " DETAIL: " and the text the transport left in the error buffer,
    read as a C string of at most [CURL_ERROR_SIZE - 1] bytes. Between
    [curl_easy_perform] and the reset no status code is asked of the
    handle. *)
Theorem transport_failure_response (r : request) (w : world) :
  CURLE_OK ≠ result (network (configured (this w) r)) →
  ∃ ret w' calls,
    perform_request curl_easy_strerror network indeterminate r w
    = (Returned ret, w') ∧
    response.code ret = (-1)%Z ∧
    response.body ret
    = "Failed to query. CURL error: "
      +:+ curl_easy_strerror (result (network (configured (this w) r)))
      +:+ " DETAIL: "
      +:+ std.c_str (std.take (CURL_ERROR_SIZE - 1)
                       (error_text (network (configured (this w) r)))) ∧
    curl_calls w' = curl_calls w ++ calls ∧
    performs calls = [configured (this w) r] ∧
    call_getinfo_RESPONSE_CODE ∉ calls.
Proof.
  intros Hfail. do 3 eexists. split; [apply perform_request_run|].
  unfold verb_response. case_decide; [|done].
  cbn [response.code response.body].
  split; [done|]. split.
  { rewrite !str_app_assoc. do 3 f_equal. apply (error_buffer_detail 255). }
  split; [done|]. split.
  - by rewrite performs_app, performs_setopt.
  - cbn [app]. rewrite elem_of_app, elem_of_cons, list_elem_of_singleton.
    intros [Hin|[[=]|[=]]]. by apply getinfo_not_setopt in Hin.
Qed.

(** ** C strings *)

Lemma c_str_cons (c : ascii) (s : string) :
  std.c_str (String c s)
  = if decide (c = zero) then "" else String c (std.c_str s).
Proof. reflexivity. Qed.

(** A string without a NUL byte is read back whole from its [c_str()]. *)
Lemma c_str_no_nul (s : string) :
  std.mem_char zero s = false → std.c_str s = s.
Proof.
  induction s as [|c s IH]; [done|]. cbn [std.mem_char]. rewrite c_str_cons.
  destruct (decide (zero = c)) as [->|Hc]; [done|].
  intros Hs. rewrite decide_False by congruence. by rewrite IH.
Qed.

Lemma mem_char_app (c : ascii) (s t : string) :
  std.mem_char c (s +:+ t) = std.mem_char c s || std.mem_char c t.
Proof.
  induction s as [|d s IH]; [by rewrite str_app_nil_l|].
  rewrite str_app_cons. cbn [std.mem_char]. by case_decide.
Qed.

Lemma url_nul_free (url : string) :
  std.mem_char zero url = false →
  CURLOPT_URL url = CURLOPT_URL (std.c_str url).
Proof. intros H. by rewrite (c_str_no_nul _ H). Qed.

Lemma content_type_nul_free (ctype : string) :
  std.mem_char zero ctype = false →
  CURLOPT_HTTPHEADER ["Content-Type: " +:+ ctype]
  = CURLOPT_HTTPHEADER [std.c_str ("Content-Type: " +:+ ctype)].
Proof.
  intros H. rewrite c_str_no_nul; [done|]. by rewrite mem_char_app, H.
Qed.

(** ** Credentials *)





End Verbs.

Lemma transport_failure_response_witness :
  ∃ ret w',
    get sample_strerror refusing 0 "http://host/x" fresh_world
    = (Returned ret, w') ∧
    response.code ret = (-1)%Z ∧
    response.body ret
    = "Failed to query. CURL error: Couldn't connect to server DETAIL: "
      +:+ "Failed to connect to host port 80: Connection refused".
Proof.
  destruct (transport_failure_response sample_strerror refusing 0
              (GET "http://host/x") fresh_world)
    as (ret & w' & calls & Hrun & Hcode & Hbody & _); [discriminate|].
  exists ret, w'. split; [exact Hrun|]. split; [exact Hcode|].
  rewrite Hbody. reflexivity.
Defined.

Lemma refused_get_run :
  ∃ w',
    get sample_strerror refusing 0 "http://host/x" fresh_world
    = (Returned
         (response.mk (-1)
            ("Failed to query. CURL error: Couldn't connect to server DETAIL: "
             +:+ "Failed to connect to host port 80: Connection refused") ∅),
       w').
Proof. eexists. vm_compute. reflexivity. Qed.

(** C1 as stated fails: the body does not begin with the stock
    description, and the separator before the detail is " DETAIL: ", with
    no colon in front. *)
Lemma transport_failure_body_counterexample :
  CURLE_OK ≠ result (refusing (configured (this fresh_world)
                                 (GET "http://host/x"))) ∧
  ∃ ret w',
    get sample_strerror refusing 0 "http://host/x" fresh_world
    = (Returned ret, w') ∧
    response.body ret
    ≠ sample_strerror 7%Z +:+ ": DETAIL: "
      +:+ "Failed to connect to host port 80: Connection refused".
Proof.
  split; [discriminate|].
  destruct refused_get_run as (w' & Hrun).
  eexists _, w'. split; [exact Hrun|]. discriminate.
Qed.



(** ** The upload cursor *)

Lemma str_length_drop (n : nat) (s : string) :
  String.length (std.drop n s) = (String.length s - n)%nat.
Proof.
  revert s. induction n as [|n IH]; intros [|c s]; simpl; try done.
Qed.

Lemma str_take_app_add (s t : string) (k : nat) :
  std.take (String.length s + k) (s +:+ t) = s +:+ std.take k t.
Proof.
  induction s as [|c s IH]; [done|].
  rewrite !str_app_cons. simpl. by rewrite IH.
Qed.

Lemma size_of_nat_length (s : string) : N.to_nat (std.size s) = String.length s.
Proof. unfold std.size. lia. Qed.

(** One call of the read callback on a valid cursor. *)
Lemma read_callback_step (size nmemb : N) (u : upload_object) :
  cursor_valid u →
  let n := size_t_mul size nmemb in
  let '(copied, count, u') := read_callback size nmemb u in
  count = N.min n (upload_object.length u) ∧
  copied = std.take (N.to_nat count) (remaining u) ∧
  std.size copied = count ∧
  mem (upload_object.data u') = mem (upload_object.data u) ∧
  pos (upload_object.data u') = pos (upload_object.data u) + count ∧
  upload_object.length u' = upload_object.length u - count ∧
  remaining u = copied +:+ remaining u' ∧
  cursor_valid u'.
Proof.
  destruct u as [[m p] len]. unfold cursor_valid, remaining, read_callback,
    memcpy, ptr_add, std.substr. cbn [upload_object.data upload_object.length mem pos].
  intros [Hin Hmem].
  set (n := size_t_mul size nmemb). cbv zeta.
  set (count := if len <? n then len else n).
  assert (count = N.min n len) as Hcount.
  { unfold count. destruct (N.ltb_spec len n); lia. }
  assert ((p + count) mod SIZE_MAX_plus_1 = p + count) as Hwrap.
  { apply N.mod_small. lia. }
  rewrite Hwrap.
  assert (std.size (std.take (N.to_nat count) (std.drop (N.to_nat p) m)) = count)
    as Hsize.
  { unfold std.size in *. rewrite str_length_take, str_length_drop. lia. }
  repeat split; try done; try lia.
  - rewrite str_take_take. f_equal. lia.
  - replace (N.to_nat (p + count)) with (N.to_nat p + N.to_nat count)%nat by lia.
    rewrite <-str_drop_drop, str_take_app_drop. f_equal. lia.
Qed.

Lemma size_remaining (u : upload_object) :
  cursor_valid u → std.size (remaining u) = upload_object.length u.
Proof.
  destruct u as [[m p] len]. unfold cursor_valid, remaining, memcpy, std.substr.
  cbn [upload_object.data upload_object.length mem pos]. intros [Hin _].
  unfold std.size in *. rewrite str_length_take, str_length_drop. lia.
Qed.

Lemma drive_callbacks_upload (size nmemb : N) (evs : list transfer_event)
    (r : response) (u : upload_object) (sent : string) :
  drive_callbacks (request_upload size nmemb :: evs) r (Some u) sent
  = drive_callbacks evs r (Some (read_callback size nmemb u).2)
      (sent +:+ (read_callback size nmemb u).1.1).
Proof. reflexivity. Qed.

(** A whole sequence of calls: the bytes handed over are the first
    [min (requested, length)] bytes of what the cursor had left. *)
Lemma upload_requests_run (reqs : list (N * N)) (r : response)
    (u : upload_object) (sent : string) :
  cursor_valid u →
  ∃ u',
    drive_callbacks (upload_requests reqs) r (Some u) sent
    = (r, Some u',
       sent +:+ std.take
                  (N.to_nat (N.min (requested reqs) (upload_object.length u)))
                  (remaining u)) ∧
    upload_object.length u'
    = upload_object.length u - N.min (requested reqs) (upload_object.length u).
Proof.
  revert u sent. induction reqs as [|[size nmemb] reqs IH]; intros u sent Hu.
  - exists u. cbn [requested]. replace (N.min 0 (upload_object.length u)) with 0 by lia.
    split; [|lia]. cbn. destruct (remaining u); by rewrite str_app_nil_r.
  - unfold upload_requests. cbn [fmap list_fmap fst snd].
    rewrite drive_callbacks_upload.
    pose proof (read_callback_step size nmemb u Hu) as Hstep. cbv zeta in Hstep.
    destruct (read_callback size nmemb u) as [[copied count] u1].
    destruct Hstep as (Hcount & Hcopied & Hsize & _ & _ & Hlen & Hrem & Hu1).
    cbn [fst snd]. destruct (IH u1 (sent +:+ copied) Hu1) as (u' & Hrun & Hlen').
    exists u'. fold (upload_requests reqs). rewrite Hrun. split.
    + f_equal. rewrite str_app_assoc. f_equal.
      cbn [requested fst snd]. rewrite Hrem.
      replace (N.to_nat (N.min (size_t_mul size nmemb + requested reqs)
                           (upload_object.length u)))
        with (String.length copied
              + N.to_nat (N.min (requested reqs) (upload_object.length u1)))%nat.
      * by rewrite str_take_app_add.
      * rewrite <-size_of_nat_length, Hsize. lia.
    + cbn [requested fst snd]. lia.
Qed.

(** The cursor [put] starts from: valid, with the whole body left. *)
Lemma put_upload_cursor (url ctype data : string) :
  std.size data + 1 < SIZE_MAX_plus_1 →
  ∃ u, upload_cursor (PUT url ctype data) = Some u ∧
       cursor_valid u ∧ remaining u = data ∧
       upload_object.length u = std.size data.
Proof.
  intros Hsize. eexists. split; [reflexivity|].
  unfold cursor_valid, remaining, memcpy, std.substr.
  cbn [upload_object.data upload_object.length mem pos].
  assert (std.size (data +:+ String zero "") = std.size data + 1) as Hlen.
  { unfold std.size. rewrite str_length_app. cbn. lia. }
  rewrite Hlen. repeat split; try lia.
  rewrite size_of_nat_length. cbn [std.drop N.to_nat].
  apply str_take_app_length.
Qed.

(** C7: on a cursor with [length] bytes left inside its buffer, a call
    asking for [n = size * nmemb] bytes copies the first [min (n, length)]
    of the bytes left, advances the cursor and lowers the length by that
    count and returns it, so it returns 0 once nothing is left. For every
    sequence of calls the bytes handed over are, in order, the first
    [min (requested, length)] of the bytes left at the start; as soon as
    the calls have asked for at least [length] bytes, exactly the original
    bytes have been handed over and the length is 0. *)
Theorem read_callback_transfers (u : upload_object) :
  cursor_valid u →
  (∀ size nmemb,
     let '(copied, count, u') := read_callback size nmemb u in
     count = N.min (size_t_mul size nmemb) (upload_object.length u) ∧
     copied = std.take (N.to_nat count) (remaining u) ∧
     std.size copied = count ∧
     pos (upload_object.data u') = pos (upload_object.data u) + count ∧
     upload_object.length u' = upload_object.length u - count ∧
     remaining u = copied +:+ remaining u' ∧
     (upload_object.length u = 0 → count = 0)) ∧
  (∀ reqs r,
     ∃ u',
       drive_callbacks (upload_requests reqs) r (Some u) ""
       = (r, Some u',
          std.take (N.to_nat (N.min (requested reqs) (upload_object.length u)))
            (remaining u)) ∧
       upload_object.length u'
       = upload_object.length u
         - N.min (requested reqs) (upload_object.length u)) ∧
  (∀ reqs r,
     upload_object.length u ≤ requested reqs →
     ∃ u',
       drive_callbacks (upload_requests reqs) r (Some u) ""
       = (r, Some u', remaining u) ∧
       std.size (remaining u) = upload_object.length u ∧
       upload_object.length u' = 0).
Proof.
  intros Hu. split; [|split].
  - intros size nmemb.
    pose proof (read_callback_step size nmemb u Hu) as Hstep. cbv zeta in Hstep.
    destruct (read_callback size nmemb u) as [[copied count] u1].
    destruct Hstep as (Hcount & Hcopied & Hsize & _ & Hpos & Hlen & Hrem & _).
    repeat split; try done. lia.
  - intros reqs r. destruct (upload_requests_run reqs r u "" Hu) as (u' & Hrun & Hlen).
    exists u'. by rewrite Hrun, str_app_nil_l.
  - intros reqs r Hreq.
    destruct (upload_requests_run reqs r u "" Hu) as (u' & Hrun & Hlen).
    pose proof (size_remaining u Hu) as Hsize.
    exists u'. rewrite Hrun, str_app_nil_l. split; [|split; [done|lia]].
    f_equal. apply str_take_all. rewrite <-size_of_nat_length. lia.
Qed.

Lemma read_callback_transfers_witness :
  ∃ u u',
    upload_cursor (PUT "http://host/y" "text/plain" "payload") = Some u ∧
    drive_callbacks (upload_requests [(1, 3); (1, 0); (2, 5)])
      (response.mk 0 "" ∅) (Some u) ""
    = (response.mk 0 "" ∅, Some u', "payload") ∧
    upload_object.length u' = 0.
Proof.
  destruct (put_upload_cursor "http://host/y" "text/plain" "payload")
    as (u & Hu & Hvalid & Hrem & Hlen); [reflexivity|].
  destruct (read_callback_transfers u Hvalid) as (_ & _ & Hall).
  destruct (Hall [(1, 3); (1, 0); (2, 5)] (response.mk 0 "" ∅))
    as (u' & Hrun & _ & Hdone).
  { rewrite Hlen. vm_compute. discriminate. }
  exists u, u'. split; [exact Hu|]. split; [|exact Hdone].
  rewrite Hrun. by rewrite Hrem.
Defined.

(** ** ptreeVector *)

Section PtreeVectorFacts.

Context {T : Type} (translator : string → option T).

Lemma ptreeVector_loop_all (l : list (string * ptree)) (xs vect : list T)
    (count : N) :
  coerced translator l xs → count < UINT_MAX_plus_1 →
  ptreeVector_loop translator l vect count
  = (Returned ((count + N.of_nat (length l)) mod UINT_MAX_plus_1), vect ++ xs).
Proof.
  intros Hco. revert vect count.
  induction Hco as [|v x l xs Hv Hco IH]; intros vect count Hcount.
  - cbn. rewrite N.add_0_r, N.mod_small, app_nil_r by done. reflexivity.
  - cbn [ptreeVector_loop]. unfold get_value. rewrite Hv.
    rewrite IH by (apply N.mod_lt; done). unfold uint_incr.
    rewrite <-(assoc_L (++)). cbn [app length]. f_equal. f_equal.
    rewrite N.Div0.add_mod_idemp_l. f_equal. lia.
Qed.

Lemma ptreeVector_loop_failure (before after : list (string * ptree))
    (v : string * ptree) (xs vect : list T) (count : N) :
  coerced translator before xs → translator (boost.data v.2) = None →
  ptreeVector_loop translator (before ++ v :: after) vect count
  = (Thrown (ptree_bad_data (boost.data v.2)), vect ++ xs).
Proof.
  intros Hco Hv. revert vect count.
  induction Hco as [|v' x l xs Hv' Hco IH]; intros vect count.
  - cbn. unfold get_value. by rewrite Hv, app_nil_r.
  - cbn [app ptreeVector_loop]. unfold get_value. rewrite Hv'.
    rewrite IH. by rewrite <-(assoc_L (++)).
Qed.

(** X18: What [ptreeVector] does on every tree: when every direct child
    coerces, it appends the coerced values to the vector in child order
    and returns normally the number of children modulo [2^32], the counter
    being an [unsigned int]; for fewer than [2^32] children this is their
    number. When a child does not coerce, [ptree_bad_data] with that
    child's data reaches the caller, the values of the children before it
    having been appended. *)
Theorem ptreeVector_appends (pt : ptree) (vect : list T) :
  (∀ xs, coerced translator (boost.children pt) xs →
     ptreeVector translator pt vect
     = (Returned (boost.size pt mod UINT_MAX_plus_1), vect ++ xs) ∧
     N.of_nat (length xs) = boost.size pt ∧
     (boost.size pt < UINT_MAX_plus_1 →
      ptreeVector translator pt vect = (Returned (boost.size pt), vect ++ xs))) ∧
  (∀ before v after xs,
     boost.children pt = before ++ v :: after →
     coerced translator before xs → translator (boost.data v.2) = None →
     ptreeVector translator pt vect
     = (Thrown (ptree_bad_data (boost.data v.2)), vect ++ xs)).
Proof.
  split.
  - intros xs Hco. unfold ptreeVector, boost.size.
    rewrite (ptreeVector_loop_all _ xs) by done. rewrite N.add_0_l.
    split; [done|]. split; [by rewrite (Forall2_length _ _ _ Hco)|].
    intros Hsmall. by rewrite N.mod_small.
  - intros before v after xs Hch Hco Hv. unfold ptreeVector. rewrite Hch.
    by apply ptreeVector_loop_failure.
Qed.

End PtreeVectorFacts.

Lemma ptreeVector_appends_example :
  ptreeVector digits_translator array_1_2_3 [] = (Returned 3, [1; 2; 3]) ∧
  ptreeVector digits_translator
    (boost.Node "" [("", boost.Node "1" []); ("", boost.Node "x" []);
                    ("", boost.Node "3" [])]) [7]
  = (Thrown (ptree_bad_data "x"), [7; 1]).
Proof.
  split.
  - destruct (ptreeVector_appends digits_translator array_1_2_3 []) as [Hall _].
    destruct (Hall [1; 2; 3]) as (_ & _ & Hsmall).
    { repeat constructor. }
    apply Hsmall. reflexivity.
  - destruct (ptreeVector_appends digits_translator
                (boost.Node "" [("", boost.Node "1" []);
                                ("", boost.Node "x" []);
                                ("", boost.Node "3" [])]) [7]) as [_ Hfail].
    apply (Hfail [("", boost.Node "1" [])] ("", boost.Node "x" [])
             [("", boost.Node "3" [])] [1]);
      [reflexivity | repeat constructor | reflexivity].
Defined.

Lemma coerced_uniform_array (n : nat) (value : string) :
  coerced id_translator (boost.children (uniform_array n value))
    (replicate n value).
Proof.
  unfold uniform_array, coerced. cbn [boost.children].
  induction n as [|n IH]; constructor; [reflexivity|exact IH].
Qed.

Lemma ptreeVector_uniform_array (n : nat) (value : string) :
  ptreeVector id_translator (uniform_array n value) []
  = (Returned (N.of_nat n mod UINT_MAX_plus_1), replicate n value).
Proof.
  unfold ptreeVector.
  rewrite (ptreeVector_loop_all id_translator _ (replicate n value))
    by (apply coerced_uniform_array || reflexivity).
  unfold uniform_array. cbn [boost.children].
  by rewrite length_replicate, N.add_0_l, app_nil_l.
Qed.

(** C9 fails on the code for a tree of [2^32] direct children (what
    [read_json] builds from an array of [2^32] scalars): every child's
    value is appended, [2^32] of them, and the count returned is 0, the
    [unsigned int] counter having wrapped. The header documents the result
    as the number of elements pushed. *)
Theorem ptreeVector_count_wraps :
  ptreeVector id_translator (uniform_array (N.to_nat UINT_MAX_plus_1) "1") []
  = (Returned 0, replicate (N.to_nat UINT_MAX_plus_1) "1") ∧
  N.of_nat (length (replicate (N.to_nat UINT_MAX_plus_1) "1"))
  = UINT_MAX_plus_1 ∧
  boost.size (uniform_array (N.to_nat UINT_MAX_plus_1) "1") = UINT_MAX_plus_1.
Proof.
  split; [|split].
  - rewrite ptreeVector_uniform_array, N2Nat.id.
    by rewrite N.Div0.mod_same.
  - rewrite length_replicate. apply N2Nat.id.
  - unfold boost.size, uniform_array. cbn [boost.children].
    rewrite length_replicate. apply N2Nat.id.
Qed.

(** ** The header callback *)

Lemma all_space_app (s t : string) :
  all_space (s +:+ t) = all_space s && all_space t.
Proof.
  induction s as [|c s IH]; [done|].
  rewrite str_app_cons. cbn [all_space]. rewrite IH. apply andb_assoc.
Qed.

Lemma all_space_rev (s : string) : all_space (String.rev s) = all_space s.
Proof.
  induction s as [|c s IH]; [done|].
  rewrite str_rev_cons, all_space_app, IH. cbn [all_space].
  rewrite andb_true_r. apply andb_comm.
Qed.

Lemma ltrim_spec (s : string) :
  ∃ l, s = l +:+ ltrim s ∧ all_space l = true ∧ starts_clean (ltrim s).
Proof.
  induction s as [|c s (l & Hs & Hl & Hclean)].
  - by exists "".
  - cbn [ltrim]. destruct (std.isspace c) eqn:Hc.
    + exists (String c l). rewrite str_app_cons, <-Hs. cbn [all_space].
      by rewrite Hc, Hl.
    + exists "". by rewrite str_app_nil_l.
Qed.

Lemma rtrim_spec (s : string) :
  ∃ r, s = rtrim s +:+ r ∧ all_space r = true ∧ ends_clean (rtrim s).
Proof.
  destruct (ltrim_spec (String.rev s)) as (l & Hs & Hl & Hclean).
  exists (String.rev l). unfold rtrim, ends_clean. split; [|split].
  - by rewrite <-str_rev_app_distr, <-Hs, str_rev_involutive.
  - by rewrite all_space_rev.
  - by rewrite str_rev_involutive.
Qed.

Lemma ends_clean_suffix (l t : string) : ends_clean (l +:+ t) → ends_clean t.
Proof.
  unfold ends_clean. rewrite str_rev_app_distr.
  destruct (String.rev t) as [|c s]; [done|]. by rewrite str_app_cons.
Qed.

(** [trim] removes exactly the leading and trailing white space. *)
Lemma trim_spec (s : string) : trimmed_of s (trim s).
Proof.
  destruct (rtrim_spec s) as (r & Hs & Hr & Hend).
  destruct (ltrim_spec (rtrim s)) as (l & Hs' & Hl & Hstart).
  exists l, r. unfold trim. split; [|split; [done|split; [done|split; [done|]]]].
  - rewrite <-str_app_assoc, <-Hs'. exact Hs.
  - apply (ends_clean_suffix l). by rewrite <-Hs'.
Qed.

Lemma find_first_of_char_None (s : string) (c : ascii) :
  std.mem_char c s = false → std.find_first_of s (String c "") = None.
Proof.
  induction s as [|d s IH]; [done|]. cbn [std.mem_char std.find_first_of].
  destruct (decide (c = d)) as [->|Hcd]; [done|]. intros Hs.
  destruct (decide (d = c)); [congruence|]. by rewrite IH.
Qed.

Lemma find_first_of_char_split (name value : string) (c : ascii) :
  std.mem_char c name = false →
  std.find_first_of (name +:+ String c value) (String c "")
  = Some (String.length name).
Proof.
  induction name as [|d name IH].
  - intros _. rewrite str_app_nil_l. cbn [std.find_first_of std.mem_char].
    by destruct (decide (c = c)).
  - rewrite str_app_cons. cbn [std.mem_char std.find_first_of String.length].
    destruct (decide (c = d)) as [->|Hcd]; [done|]. intros Hname.
    destruct (decide (d = c)); [congruence|]. by rewrite IH.
Qed.

Lemma first_colon_split (line : string) :
  std.mem_char ":" line = true →
  ∃ name value,
    line = name +:+ ":" +:+ value ∧ std.mem_char ":" name = false.
Proof.
  induction line as [|c line IH]; [done|]. cbn [std.mem_char].
  destruct (decide (":"%char = c)) as [<-|Hc].
  - intros _. by exists "", line.
  - intros Hline. destruct (IH Hline) as (name & value & -> & Hname).
    exists (String c name), value. split; [done|]. cbn [std.mem_char].
    by destruct (decide (":"%char = c)).
Qed.

(** C5: the callback reports [size * nmemb] in every branch and touches
    nothing but the header map. A line [name:value] whose [name] holds no
    colon, i.e. cut at its first colon, stores the trimmed [name] with
    the trimmed [value], colons of [value] included, in place of whatever
    the name had before. A line without colon is ignored when it trims to
    the empty string and is stored with the value "present" under its
    trimmed text otherwise. Every line with a colon has its cut at the
    first colon, so the three cases cover all lines. ([trim] is
    white-space trimming: [trim_spec].) *)
Theorem header_callback_stores (data : string) (size nmemb : N) (r : response) :
  let line := std.of_buffer data (size_t_mul size nmemb) in
  let r' := (header_callback data size nmemb r).2 in
  (header_callback data size nmemb r).1 = size_t_mul size nmemb ∧
  response.code r' = response.code r ∧
  response.body r' = response.body r ∧
  (∀ name value,
     line = name +:+ ":" +:+ value → std.mem_char ":" name = false →
     response.headers r' = <[trim name := trim value]> (response.headers r) ∧
     response.headers r' !! trim name = Some (trim value) ∧
     ∀ other, other ≠ trim name →
       response.headers r' !! other = response.headers r !! other) ∧
  (std.mem_char ":" line = false → trim line = "" →
     response.headers r' = response.headers r) ∧
  (std.mem_char ":" line = false → trim line ≠ "" →
     response.headers r'
     = <[trim line := "present"]> (response.headers r)) ∧
  (std.mem_char ":" line = true →
     ∃ name value,
       line = name +:+ ":" +:+ value ∧ std.mem_char ":" name = false).
Proof.
  intros line r'. subst r'. unfold header_callback. fold line.
  split; [|split; [|split; [|split; [|split; [|split]]]]];
    [| | | | | |apply first_colon_split].
  - destruct (std.find_first_of line ":"); [done|]. by case_decide.
  - destruct (std.find_first_of line ":"); [done|]. by case_decide.
  - destruct (std.find_first_of line ":"); [done|]. by case_decide.
  - intros name value Hline Hname.
    rewrite str_app_cons, str_app_nil_l in Hline.
    assert (std.find_first_of line ":" = Some (String.length name)) as ->.
    { rewrite Hline. by apply find_first_of_char_split. }
    cbn [snd response.headers]. unfold std.substr, std.substr_from.
    cbn [std.drop]. rewrite Hline, str_take_app_length.
    assert (std.drop (String.length name + 1) (name +:+ String ":" value)
            = value) as ->.
    { by rewrite <-(str_drop_drop 1), str_drop_app_length. }
    split; [done|]. split; [apply lookup_insert_eq|].
    intros other Hother. by apply lookup_insert_ne.
  - intros Hline Hempty. rewrite find_first_of_char_None by done.
    rewrite Hempty. reflexivity.
  - intros Hline Hne. rewrite find_first_of_char_None by done.
    case_decide as Hsize; [|done].
    destruct (trim line); [done|discriminate].
Qed.

Lemma header_callback_stores_witness :
  let r := response.mk 0 "" {["Location" := "old"]} in
  let delivered :=
    header_callback (" Location:  http://host:80/x " +:+ endl) 1 30 r in
  delivered.1 = 30 ∧
  response.headers delivered.2 !! "Location" = Some "http://host:80/x".
Proof.
  intros r delivered.
  destruct (header_callback_stores (" Location:  http://host:80/x " +:+ endl)
              1 30 r) as (Hconsumed & _ & _ & Hcolon & _).
  split; [exact Hconsumed|].
  destruct (Hcolon " Location" ("  http://host:80/x " +:+ endl))
    as (_ & Hstored & _); [reflexivity|reflexivity|].
  exact Hstored.
Defined.

(** ** Worked examples *)

Example trim_example : trim ("  a b " +:+ tab +:+ endl) = "a b".
Proof. reflexivity. Qed.

Example path_fragments_examples :
  boost.path_fragments "a.b" = ["a"; "b"] ∧
  boost.path_fragments "a." = ["a"] ∧
  boost.path_fragments ".a" = [""; "a"] ∧
  boost.path_fragments "error" = ["error"] ∧
  boost.path_fragments "" = [].
Proof. repeat split. Qed.

Example put_error_example :
  boost.put "error" "Status 500 when getting u" boost.empty
  = error_tree "Status 500 when getting u".
Proof. reflexivity. Qed.

(** Chunks of the body arrive in any segmentation and are appended in
    order. *)
Example write_callback_example :
  drive_callbacks [deliver_body "[1,2" 1 5; deliver_body ",3]" 3 1]
    (response.mk 0 "" ∅) None ""
  = (response.mk 0 "[1,2,3]" ∅, None, "").
Proof. reflexivity. Qed.

(** With [info], [traceback] and [djerror] all present, the first shape
    is the one reported. *)
Example checkDjangoError_info_before_djerror :
  checkDjangoError
    (Some (boost.Node "" [("djerror", boost.Node "d" []);
                          ("traceback", boost.Node "t" []);
                          ("info", boost.Node "i" [])])) fresh_world
  = (Returned true,
     logged fresh_world ["Django error: i" +:+ endl;
                         "    traceback: t" +:+ endl]).
Proof. reflexivity. Qed.

(** A status of 500: the tree returned in place of the body "oops" is
    then reported by [checkDjangoError], with the status text. *)
Example non_200_then_checkDjangoError :
  ∃ w,
    getPropertyTree sample_strerror (answering 500 "oops") sample_read_json 0
      "http://host/x" fresh_world
    = (Returned (Some (error_tree "Status 500 when getting http://host/x")), w) ∧
    checkDjangoError
      (Some (error_tree "Status 500 when getting http://host/x")) w
    = (Returned true,
       logged w ["HTTP Error: Status 500 when getting http://host/x" +:+ endl]).
Proof. eexists. split; [vm_compute; reflexivity|reflexivity]. Qed.

(** A refused connection seen through the JSON layer: code -1 is not 200,
    so the caller gets the error tree. *)
Example refused_getPropertyTree :
  (getPropertyTree sample_strerror refusing sample_read_json 0
     "http://host/x" fresh_world).1
  = Returned (Some (error_tree "Status -1 when getting http://host/x")).
Proof. vm_compute. reflexivity. Qed.

(** * Further properties of the code *)

(** ** Trimming *)

Lemma ltrim_clean (s : string) : starts_clean s → ltrim s = s.
Proof. destruct s as [|c s]; [done|]. cbn. by intros ->. Qed.

Lemma rtrim_clean (s : string) : ends_clean s → rtrim s = s.
Proof.
  unfold ends_clean, rtrim. intros H.
  by rewrite ltrim_clean, str_rev_involutive.
Qed.

Lemma ltrim_all_space (s : string) : all_space s = true → ltrim s = "".
Proof.
  induction s as [|c s IH]; [done|]. cbn.
  intros [Hc Hs]%andb_true_iff. rewrite Hc. by apply IH.
Qed.

Lemma trim_all_space (s : string) : all_space s = true → trim s = "".
Proof.
  intros Hs. unfold trim, rtrim.
  rewrite (ltrim_all_space (String.rev s)) by (by rewrite all_space_rev).
  reflexivity.
Qed.

(** X1: [trim] ([ltrim] after [rtrim]) cuts [s] into leading white space,
    [trim s] and trailing white space, [trim s] neither beginning nor
    ending with white space; it yields the empty string exactly for the
    strings made of white space only. White space inside is kept. *)
Theorem trim_removes_outer_white_space (s : string) :
  trimmed_of s (trim s) ∧ (trim s = "" ↔ all_space s = true).
Proof.
  split; [apply trim_spec|]. split; [|apply trim_all_space].
  intros Hempty. destruct (trim_spec s) as (l & r & Hs & Hl & Hr & _).
  rewrite Hs, Hempty, str_app_nil_l, all_space_app, Hl, Hr. reflexivity.
Qed.

(** X2: The strings [trim] leaves alone are those that neither begin nor end
    with white space; a trimmed string is one of them, so trimming twice
    is trimming once. *)
Theorem trim_fixed_points (s : string) :
  (trim s = s ↔ starts_clean s ∧ ends_clean s) ∧ trim (trim s) = trim s.
Proof.
  assert (∀ t, starts_clean t → ends_clean t → trim t = t) as Hfix.
  { intros t Hstart Hend. unfold trim. rewrite rtrim_clean by done.
    by apply ltrim_clean. }
  destruct (trim_spec s) as (l & r & _ & _ & _ & Hstart & Hend).
  split; [split|].
  - intros Heq. by rewrite Heq in Hstart, Hend.
  - intros [? ?]. by apply Hfix.
  - by apply Hfix.
Qed.

(** ** The push callbacks *)

Lemma drive_callbacks_nil (r : response) (u : option upload_object)
    (sent : string) : drive_callbacks [] r u sent = (r, u, sent).
Proof. reflexivity. Qed.

Lemma drive_callbacks_deliver_body (data : string) (size nmemb : N)
    (evs : list transfer_event) (r : response) (u : option upload_object)
    (sent : string) :
  drive_callbacks (deliver_body data size nmemb :: evs) r u sent
  = drive_callbacks evs (write_callback data size nmemb r).2 u sent.
Proof. reflexivity. Qed.

Lemma drive_callbacks_deliver_header (data : string) (size nmemb : N)
    (evs : list transfer_event) (r : response) (u : option upload_object)
    (sent : string) :
  drive_callbacks (deliver_header data size nmemb :: evs) r u sent
  = drive_callbacks evs (header_callback data size nmemb r).2 u sent.
Proof. reflexivity. Qed.

Lemma drive_callbacks_request_upload (size nmemb : N)
    (evs : list transfer_event) (r : response) (u : option upload_object)
    (sent : string) :
  drive_callbacks (request_upload size nmemb :: evs) r u sent
  = match u with
    | Some up =>
        drive_callbacks evs r (Some (read_callback size nmemb up).2)
          (sent +:+ (read_callback size nmemb up).1.1)
    | None => drive_callbacks evs r None sent
    end.
Proof. destruct u; reflexivity. Qed.

Lemma header_callback_frame (data : string) (size nmemb : N) (r : response) :
  response.code (header_callback data size nmemb r).2 = response.code r ∧
  response.body (header_callback data size nmemb r).2 = response.body r.
Proof.
  unfold header_callback.
  destruct (std.find_first_of _ ":"); [done|]. by case_decide.
Qed.

(** Whatever the events of a transfer, the body afterwards is the body
    before followed by the chunks delivered, and the code is untouched. *)
Lemma drive_callbacks_body (evs : list transfer_event) (r : response)
    (u : option upload_object) (sent : string) :
  response.body (drive_callbacks evs r u sent).1.1
  = response.body r +:+ body_chunks evs ∧
  response.code (drive_callbacks evs r u sent).1.1 = response.code r.
Proof.
  revert r u sent. induction evs as [|[data size nmemb|data size nmemb|size nmemb] evs IH];
    intros r u sent.
  - rewrite drive_callbacks_nil. cbn. by rewrite str_app_nil_r.
  - rewrite drive_callbacks_deliver_header.
    destruct (IH (header_callback data size nmemb r).2 u sent) as [-> ->].
    by destruct (header_callback_frame data size nmemb r) as [-> ->].
  - rewrite drive_callbacks_deliver_body.
    destruct (IH (write_callback data size nmemb r).2 u sent) as [-> ->].
    cbn [write_callback snd response.body response.code body_chunks].
    by rewrite str_app_assoc.
  - rewrite drive_callbacks_request_upload. destruct u; apply IH.
Qed.

(** X3: The write callback appends each chunk to the body and reports it as
    consumed whole; a sequence of chunks, each as long as its
    [size * nmemb], leaves the body it found followed by the chunks in
    order of delivery, however the bytes were cut into chunks, and leaves
    code and headers alone. *)
Theorem write_callback_accumulates (chunks : list (string * N * N))
    (r : response) (u : option upload_object) (sent : string) :
  Forall exact_chunk chunks →
  Forall (λ c, (write_callback c.1.1 c.1.2 c.2 r).1 = std.size c.1.1) chunks ∧
  drive_callbacks (deliveries chunks) r u sent
  = (response.mk (response.code r)
       (response.body r +:+ join (chunks.*1.*1)) (response.headers r),
     u, sent).
Proof.
  intros Hexact. split.
  { eapply Forall_impl; [exact Hexact|]. intros c Hc. by rewrite Hc. }
  revert r. induction Hexact as [|[[data size] nmemb] chunks Hc _ IH]; intros r.
  - cbn. rewrite drive_callbacks_nil, str_app_nil_r. by destruct r.
  - unfold deliveries. cbn [fmap list_fmap fst snd].
    rewrite drive_callbacks_deliver_body. fold (deliveries chunks).
    rewrite IH. cbn [write_callback snd response.code response.body
                     response.headers join].
    unfold exact_chunk in Hc. cbn [fst snd] in Hc.
    unfold std.of_buffer. rewrite <-Hc, size_of_nat_length, str_take_all by done.
    by rewrite str_app_assoc.
Qed.

Lemma write_callback_accumulates_witness :
  drive_callbacks (deliveries [("[1,2", 1, 4); (",3]", 3, 1)])
    (response.mk 200 "" ∅) None ""
  = (response.mk 200 "[1,2,3]" ∅, None, "").
Proof.
  destruct (write_callback_accumulates [("[1,2", 1, 4); (",3]", 3, 1)]
              (response.mk 200 "" ∅) None "") as [_ Hrun].
  { repeat constructor. }
  exact Hrun.
Defined.

Lemma header_callback_colon (data : string) (size nmemb : N) (r : response)
    (name value : string) :
  std.of_buffer data (size_t_mul size nmemb) = name +:+ ":" +:+ value →
  std.mem_char ":" name = false →
  header_callback data size nmemb r
  = (size_t_mul size nmemb,
     response.mk (response.code r) (response.body r)
       (<[trim name := trim value]> (response.headers r))).
Proof.
  intros Hline Hname. unfold header_callback.
  rewrite str_app_cons, str_app_nil_l in Hline. rewrite Hline.
  rewrite (find_first_of_char_split name value ":"%char Hname).
  unfold std.substr, std.substr_from. cbn [std.drop].
  rewrite str_take_app_length.
  by rewrite <-(str_drop_drop 1), str_drop_app_length.
Qed.

Lemma header_callback_no_colon (data : string) (size nmemb : N) (r : response) :
  std.mem_char ":" (std.of_buffer data (size_t_mul size nmemb)) = false →
  header_callback data size nmemb r
  = (size_t_mul size nmemb,
     if decide (trim (std.of_buffer data (size_t_mul size nmemb)) = "") then r
     else response.mk (response.code r) (response.body r)
            (<[trim (std.of_buffer data (size_t_mul size nmemb)) := "present"]>
               (response.headers r))).
Proof.
  intros Hline. unfold header_callback.
  rewrite find_first_of_char_None by done.
  destruct (trim _) as [|c s]; reflexivity.
Qed.

(** X4: Two header lines whose names trim to the same text, delivered one
    after the other: the map ends as if only the second had been
    delivered, so the last occurrence of a header wins. Names are compared
    as they are, case included. *)
Theorem header_callback_last_wins (data1 data2 : string)
    (size1 nmemb1 size2 nmemb2 : N) (r : response)
    (name1 value1 name2 value2 : string) :
  std.of_buffer data1 (size_t_mul size1 nmemb1) = name1 +:+ ":" +:+ value1 →
  std.mem_char ":" name1 = false →
  std.of_buffer data2 (size_t_mul size2 nmemb2) = name2 +:+ ":" +:+ value2 →
  std.mem_char ":" name2 = false →
  trim name1 = trim name2 →
  (header_callback data2 size2 nmemb2
     (header_callback data1 size1 nmemb1 r).2).2
  = (header_callback data2 size2 nmemb2 r).2 ∧
  response.headers
    (header_callback data2 size2 nmemb2
       (header_callback data1 size1 nmemb1 r).2).2 !! trim name1
  = Some (trim value2).
Proof.
  intros Hline1 Hname1 Hline2 Hname2 Hsame.
  rewrite (header_callback_colon data1 _ _ r name1 value1) by done.
  rewrite !(header_callback_colon data2 _ _ _ name2 value2) by done.
  cbn [snd response.code response.body response.headers].
  rewrite Hsame, insert_insert_eq. split; [done|]. apply lookup_insert_eq.
Qed.

Lemma header_callback_last_wins_witness :
  response.headers
    (header_callback "set-cookie: b=2" 1 15
       (header_callback "set-cookie : a=1" 1 16 (response.mk 0 "" ∅)).2).2
  !! "set-cookie" = Some "b=2".
Proof.
  destruct (header_callback_last_wins "set-cookie : a=1" "set-cookie: b=2"
              1 16 1 15 (response.mk 0 "" ∅)
              "set-cookie " " a=1" "set-cookie" " b=2") as [_ Hlast];
    [reflexivity..|].
  exact Hlast.
Defined.

(** X5: Blank parts of a header line. A line with a colon is always stored:
    under the empty name when nothing but white space precedes its first
    colon, and with the empty value when nothing but white space follows
    it. A line without colon that is all white space (the blank line
    ending the headers) leaves the response as it was. *)
Theorem header_callback_blank_parts (data : string) (size nmemb : N)
    (r : response) :
  let line := std.of_buffer data (size_t_mul size nmemb) in
  (∀ name value,
     line = name +:+ ":" +:+ value → std.mem_char ":" name = false →
     (all_space name = true →
      response.headers (header_callback data size nmemb r).2 !! ""
      = Some (trim value)) ∧
     (all_space value = true →
      response.headers (header_callback data size nmemb r).2 !! trim name
      = Some "")) ∧
  (std.mem_char ":" line = false → all_space line = true →
   header_callback data size nmemb r = (size_t_mul size nmemb, r)).
Proof.
  intros line. split.
  - intros name value Hline Hname.
    rewrite (header_callback_colon data _ _ r name value) by done.
    cbn [snd response.headers]. split; intros Hblank.
    + rewrite (trim_all_space name Hblank). apply lookup_insert_eq.
    + rewrite (trim_all_space value Hblank). apply lookup_insert_eq.
  - intros Hline Hblank. rewrite header_callback_no_colon by done.
    fold line. rewrite (trim_all_space line Hblank). reflexivity.
Qed.

Lemma header_callback_blank_parts_witness :
  response.headers
    (header_callback (" : x" +:+ endl) 1 5 (response.mk 0 "" ∅)).2 !! ""
  = Some "x" ∧
  header_callback (String (ascii_of_N 13) endl) 1 2 (response.mk 0 "" ∅)
  = (2, response.mk 0 "" ∅).
Proof.
  split.
  - destruct (header_callback_blank_parts (" : x" +:+ endl) 1 5
                (response.mk 0 "" ∅)) as [Hcolon _].
    destruct (Hcolon " " (" x" +:+ endl)) as [Hname _];
      [reflexivity|reflexivity|].
    by apply Hname.
  - destruct (header_callback_blank_parts (String (ascii_of_N 13) endl) 1 2
                (response.mk 0 "" ∅)) as [_ Hblank].
    by apply Hblank.
Defined.

(** ** The verbs *)

Lemma c_str_prefix (s : string) : ∃ rest, s = std.c_str s +:+ rest.
Proof.
  induction s as [|c s (rest & IH)]; [by exists ""|].
  rewrite c_str_cons. case_decide.
  - by exists (String c s).
  - exists rest. by rewrite str_app_cons, <-IH.
Qed.

Lemma c_str_length (s : string) :
  (String.length (std.c_str s) ≤ String.length s)%nat.
Proof.
  induction s as [|c s IH]; [done|]. rewrite c_str_cons.
  case_decide; cbn [String.length]; lia.
Qed.

Lemma c_str_no_zero (s : string) : std.mem_char zero (std.c_str s) = false.
Proof.
  induction s as [|c s IH]; [done|]. rewrite c_str_cons.
  case_decide; [done|]. cbn [std.mem_char].
  destruct (decide (zero = c)); [congruence|done].
Qed.

Lemma static_cast_int_in_range (z : Z) :
  (- 2 ^ 31 ≤ z < 2 ^ 31)%Z → static_cast_int z = z.
Proof. intros Hz. unfold static_cast_int. rewrite Z.mod_small; lia. Qed.

Lemma static_cast_long_in_range (n : N) :
  n < 2 ^ 63 → static_cast_long n = Z.of_N n.
Proof. intros Hn. unfold static_cast_long. rewrite Z.mod_small; lia. Qed.

(** The code field of [ret] is carried through the callbacks untouched
    and nothing they store depends on it. *)
Lemma drive_callbacks_code (evs : list transfer_event) (c1 c2 : Z)
    (b : string) (h : gmap string string) (u : option upload_object)
    (sent : string) :
  ∃ b' h' u' sent',
    drive_callbacks evs (response.mk c1 b h) u sent
    = (response.mk c1 b' h', u', sent') ∧
    drive_callbacks evs (response.mk c2 b h) u sent
    = (response.mk c2 b' h', u', sent').
Proof.
  revert b h u sent.
  induction evs as [|[data size nmemb|data size nmemb|size nmemb] evs IH];
    intros b h u sent.
  - by exists b, h, u, sent.
  - rewrite !drive_callbacks_deliver_header.
    assert (∃ h'', ∀ c, (header_callback data size nmemb (response.mk c b h)).2
                        = response.mk c b h'') as [h'' Hh].
    { unfold header_callback.
      cbn [response.code response.body response.headers].
      destruct (std.find_first_of _ ":"); [eexists; intros c; reflexivity|].
      case_decide; eexists; intros c; reflexivity. }
    rewrite !Hh. apply IH.
  - rewrite !drive_callbacks_deliver_body. apply IH.
  - rewrite !drive_callbacks_request_upload. destruct u; apply IH.
Qed.

Section VerbFacts.

Variable curl_easy_strerror : CURLcode → string.
Variable network : list curl_option → transfer.
Variable indeterminate : Z.

(** X6: Every verb returns normally, in every state of the client, handle
    included: it sets options, performs one transfer, asks for the status
    code at most once and resets the handle as its last call; it leaves
    the credential string and the log as they were and the handle in its
    initial state. *)
Theorem verb_returns_and_resets (r : request) (w : world) :
  ∃ ret w' setopts,
    perform_request curl_easy_strerror network indeterminate r w
    = (Returned ret, w') ∧
    this w' = {| _user_pass := _user_pass (this w);
                 _curl := curl_easy_init_handle |} ∧
    errlog w' = errlog w ∧
    (curl_calls w'
     = curl_calls w ++ (call_setopt <$> setopts)
       ++ [call_perform (configured (this w) r); call_reset] ∨
     curl_calls w'
     = curl_calls w ++ (call_setopt <$> setopts)
       ++ [call_perform (configured (this w) r);
           call_getinfo_RESPONSE_CODE; call_reset]).
Proof.
  do 3 eexists. split; [apply perform_request_run|].
  cbn [this errlog curl_calls]. split; [done|]. split; [done|].
  case_decide; [left|right]; reflexivity.
Qed.

(** X7: After a transfer that ended in [CURLE_OK] the status code is asked of
    the handle and becomes the code of the response, unchanged whenever it
    fits an [int]; the body is what the transfer delivered as body, chunk
    after chunk. *)
Theorem transport_success_response (r : request) (w : world) :
  CURLE_OK = result (network (configured (this w) r)) →
  ∃ ret w' calls,
    perform_request curl_easy_strerror network indeterminate r w
    = (Returned ret, w') ∧
    response.code ret
    = static_cast_int (status (network (configured (this w) r))) ∧
    ((- 2 ^ 31 ≤ status (network (configured (this w) r)) < 2 ^ 31)%Z →
     response.code ret = status (network (configured (this w) r))) ∧
    response.body ret
    = body_chunks (events (network (configured (this w) r))) ∧
    curl_calls w' = curl_calls w ++ calls ∧
    performs calls = [configured (this w) r] ∧
    call_getinfo_RESPONSE_CODE ∈ calls.
Proof.
  intros Hok. do 3 eexists. split; [apply perform_request_run|].
  unfold verb_response. case_decide; [done|].
  cbn [response.code response.body]. split; [done|].
  split; [apply static_cast_int_in_range|]. split.
  { destruct (drive_callbacks_body
                (events (network (configured (this w) r)))
                (response.mk indeterminate "" ∅) (upload_cursor r) "")
      as [-> _]. by rewrite str_app_nil_l. }
  split; [done|]. split.
  - by rewrite performs_app, performs_setopt.
  - cbn [app]. rewrite elem_of_app, !elem_of_cons. right. right. by left.
Qed.

(** X8: After a failed transfer the body ends with a detail text that is a
    beginning of what the transport left in the error buffer, holds no
    NUL byte and is at most [CURL_ERROR_SIZE - 1] bytes long; nothing of
    the body chunks delivered before the failure is in it. *)
Theorem transport_failure_detail_bounded (r : request) (w : world) :
  CURLE_OK ≠ result (network (configured (this w) r)) →
  ∃ ret w' detail rest,
    perform_request curl_easy_strerror network indeterminate r w
    = (Returned ret, w') ∧
    response.body ret
    = "Failed to query. CURL error: "
      +:+ curl_easy_strerror (result (network (configured (this w) r)))
      +:+ " DETAIL: " +:+ detail ∧
    error_text (network (configured (this w) r)) = detail +:+ rest ∧
    (String.length detail ≤ CURL_ERROR_SIZE - 1)%nat ∧
    std.mem_char zero detail = false.
Proof.
  intros Hfail.
  set (text := error_text (network (configured (this w) r))).
  destruct (c_str_prefix (std.take (CURL_ERROR_SIZE - 1) text)) as (rest & Hrest).
  exists (verb_response curl_easy_strerror (network (configured (this w) r))
            (drive_callbacks (events (network (configured (this w) r)))
               (response.mk indeterminate "" ∅) (upload_cursor r) "").1.1).
  eexists. exists (std.c_str (std.take (CURL_ERROR_SIZE - 1) text)).
  exists (rest +:+ std.drop (CURL_ERROR_SIZE - 1) text).
  split; [apply perform_request_run|].
  unfold verb_response. case_decide; [|done]. cbn [response.body].
  split; [|split; [|split]].
  - rewrite !str_app_assoc. do 3 f_equal. apply (error_buffer_detail 255).
  - rewrite <-str_app_assoc, <-Hrest. by rewrite str_take_drop.
  - etrans; [apply c_str_length|]. rewrite str_length_take. lia.
  - apply c_str_no_zero.
Qed.

(** X9: The indeterminate value [ret.code] starts with never reaches the
    caller: a verb's response and the state it leaves are the same
    whatever that value is. *)
Theorem verb_result_ignores_indeterminate (i1 i2 : Z) (r : request) (w : world) :
  perform_request curl_easy_strerror network i1 r w
  = perform_request curl_easy_strerror network i2 r w.
Proof.
  rewrite !perform_request_run. f_equal. f_equal.
  destruct (drive_callbacks_code (events (network (configured (this w) r)))
              i1 i2 "" ∅ (upload_cursor r) "")
    as (b' & h' & u' & sent' & -> & ->).
  unfold verb_response. by case_decide.
Qed.

Lemma perform_request_depends_on_this (r : request) (w1 w2 : world) :
  this w1 = this w2 →
  (perform_request curl_easy_strerror network indeterminate r w1).1
  = (perform_request curl_easy_strerror network indeterminate r w2).1.
Proof. intros Hthis. rewrite !perform_request_run. cbn [fst]. by rewrite Hthis. Qed.

(** X10: Verbs issued one after the other on a client whose handle is in its
    initial state do not influence each other: each returns the response
    it would return as the only call on that client, and the client is
    afterwards as it was. *)
Theorem requests_are_independent (rs : list request) (w : world) :
  _curl (this w) = curl_easy_init_handle →
  ∃ xs w',
    perform_requests curl_easy_strerror network indeterminate rs w
    = (Returned xs, w') ∧
    this w' = this w ∧
    Forall2 (λ r x,
       (perform_request curl_easy_strerror network indeterminate r w).1
       = Returned x) rs xs.
Proof.
  intros Hcurl.
  assert (∀ w1, this w1 = this w →
    ∃ xs w',
      perform_requests curl_easy_strerror network indeterminate rs w1
      = (Returned xs, w') ∧
      this w' = this w ∧
      Forall2 (λ r x,
         (perform_request curl_easy_strerror network indeterminate r w).1
         = Returned x) rs xs) as Hgen; [|by apply Hgen].
  induction rs as [|r rs IH]; intros w1 Hthis.
  - exists [], w1. by repeat split.
  - cbn [perform_requests]. unfold mbind, mret, M_bind, M_ret, bind_M, ret_M.
    pose proof (perform_request_depends_on_this r w1 w Hthis) as Hsame.
    rewrite (perform_request_run curl_easy_strerror network indeterminate r w1)
      in Hsame |- *.
    match goal with
    | |- context [perform_requests _ _ _ rs ?w2] => set (w2' := w2)
    end.
    destruct (IH w2') as (xs & w' & Hrun & Hthis' & Hall).
    { subst w2'. cbn [this]. rewrite Hthis.
      destruct w as [[up h] calls0 log0]. cbn in *. by subst h. }
    rewrite Hrun. do 2 eexists. split; [reflexivity|]. split; [done|].
    constructor; [|done]. by rewrite <-Hsame.
Qed.

End VerbFacts.

Lemma transport_success_response_witness :
  ∃ ret w',
    get sample_strerror (answering 200 "{}") 0 "http://host/x" fresh_world
    = (Returned ret, w') ∧
    response.code ret = 200%Z ∧ response.body ret = "{}".
Proof.
  destruct (transport_success_response sample_strerror (answering 200 "{}") 0
              (GET "http://host/x") fresh_world)
    as (ret & w' & calls & Hrun & _ & Hcode & Hbody & _); [reflexivity|].
  exists ret, w'. split; [exact Hrun|]. split; [|exact Hbody].
  apply Hcode. cbn. lia.
Defined.

Lemma transport_failure_detail_bounded_witness :
  ∃ ret w' detail,
    get sample_strerror refusing 0 "http://host/x" fresh_world
    = (Returned ret, w') ∧
    response.body ret
    = "Failed to query. CURL error: Couldn't connect to server DETAIL: "
      +:+ detail ∧
    (String.length detail ≤ 255)%nat.
Proof.
  destruct (transport_failure_detail_bounded sample_strerror refusing 0
              (GET "http://host/x") fresh_world)
    as (ret & w' & detail & rest & Hrun & Hbody & _ & Hlen & _);
    [discriminate|].
  exists ret, w', detail. split; [exact Hrun|]. split; [|exact Hlen].
  rewrite Hbody. reflexivity.
Defined.

Lemma requests_are_independent_witness :
  ∃ xs w',
    perform_requests sample_strerror (answering 200 "{}") 0
      [GET "http://host/x"; DELETE "http://host/x"] fresh_world
    = (Returned xs, w') ∧
    this w' = this fresh_world ∧ length xs = 2%nat.
Proof.
  destruct (requests_are_independent sample_strerror (answering 200 "{}") 0
              [GET "http://host/x"; DELETE "http://host/x"] fresh_world)
    as (xs & w' & Hrun & Hthis & Hall); [reflexivity|].
  exists xs, w'. split; [exact Hrun|]. split; [exact Hthis|].
  by rewrite <-(Forall2_length _ _ _ Hall).
Defined.

Section VerbConfiguration.

Variable curl_easy_strerror : CURLcode → string.
Variable network : list curl_option → transfer.
Variable indeterminate : Z.

Ltac option_set :=
  apply elem_of_app; right; unfold request_options, auth_options;
  case_decide; cbn [app];
  solve [repeat first [apply list_elem_of_here | apply list_elem_of_further]].

(** X11: What the one transfer of a verb is configured with, whatever else
    the handle carried: always the user agent "sopnet/0.10" and the URL;
    for POST the body bytes and their length as an explicit size, so that
    NUL bytes in the body do not cut it short, and the content type
    header; for PUT the upload switch, the read callback, the body length
    as file size and the content type header; for DELETE the custom
    request "DELETE". The URL and the content type header reach the
    transfer as the C strings read from their [c_str()], cut at a first
    NUL byte, hence whole when the URL, respectively the content type,
    holds none. *)
Theorem verb_configures_transfer (r : request) (w : world) :
  ∃ ret w' calls opts,
    perform_request curl_easy_strerror network indeterminate r w
    = (Returned ret, w') ∧
    curl_calls w' = curl_calls w ++ calls ∧
    performs calls = [opts] ∧
    CURLOPT_USERAGENT "sopnet/0.10" ∈ opts ∧
    match r with
    | GET url =>
        CURLOPT_URL (std.c_str url) ∈ opts ∧
        (std.mem_char zero url = false → CURLOPT_URL url ∈ opts)
    | POST url ctype data =>
        CURLOPT_URL (std.c_str url) ∈ opts ∧
        (std.mem_char zero url = false → CURLOPT_URL url ∈ opts) ∧
        CURLOPT_POST 1 ∈ opts ∧
        CURLOPT_POSTFIELDS data ∈ opts ∧
        CURLOPT_POSTFIELDSIZE (std.size data) ∈ opts ∧
        CURLOPT_HTTPHEADER [std.c_str ("Content-Type: " +:+ ctype)] ∈ opts ∧
        (std.mem_char zero ctype = false →
         CURLOPT_HTTPHEADER ["Content-Type: " +:+ ctype] ∈ opts)
    | PUT url ctype data =>
        CURLOPT_URL (std.c_str url) ∈ opts ∧
        (std.mem_char zero url = false → CURLOPT_URL url ∈ opts) ∧
        CURLOPT_UPLOAD 1 ∈ opts ∧
        CURLOPT_READFUNCTION ∈ opts ∧
        CURLOPT_INFILESIZE (static_cast_long (std.size data)) ∈ opts ∧
        (std.size data < 2 ^ 63 →
         CURLOPT_INFILESIZE (Z.of_N (std.size data)) ∈ opts) ∧
        CURLOPT_HTTPHEADER [std.c_str ("Content-Type: " +:+ ctype)] ∈ opts ∧
        (std.mem_char zero ctype = false →
         CURLOPT_HTTPHEADER ["Content-Type: " +:+ ctype] ∈ opts)
    | DELETE url =>
        CURLOPT_URL (std.c_str url) ∈ opts ∧
        (std.mem_char zero url = false → CURLOPT_URL url ∈ opts) ∧
        CURLOPT_CUSTOMREQUEST "DELETE" ∈ opts
    end.
Proof.
  do 3 eexists. exists (configured (this w) r).
  split; [apply perform_request_run|].
  cbn [curl_calls]. split; [done|]. split.
  { rewrite performs_app, performs_setopt. cbn [app performs].
    rewrite performs_app. by case_decide. }
  unfold configured. split; [option_set|].
  destruct r as [url|url ctype data|url ctype data|url];
    repeat split; try option_set;
    intros H;
    first [ rewrite (url_nul_free _ H)
          | rewrite (content_type_nul_free _ H)
          | rewrite <-(static_cast_long_in_range _ H) ];
    option_set.
Qed.

End VerbConfiguration.

Lemma verb_configures_transfer_witness :
  ∃ ret w' calls opts,
    put sample_strerror (answering 200 "{}") 0 "http://host/y" "text/plain"
      "payload" fresh_world
    = (Returned ret, w') ∧
    curl_calls w' = calls ∧ performs calls = [opts] ∧
    CURLOPT_URL "http://host/y" ∈ opts ∧
    CURLOPT_INFILESIZE 7 ∈ opts ∧
    CURLOPT_HTTPHEADER ["Content-Type: text/plain"] ∈ opts.
Proof.
  destruct (verb_configures_transfer sample_strerror (answering 200 "{}") 0
              (PUT "http://host/y" "text/plain" "payload") fresh_world)
    as (ret & w' & calls & opts & Hrun & Hcalls & Hperf & _ & _ & Hurl & _ & _
        & _ & Hsize & _ & Htype).
  exists ret, w', calls, opts. split; [exact Hrun|]. split; [exact Hcalls|].
  split; [exact Hperf|]. split; [by apply Hurl|].
  split; [by apply Hsize|]. by apply Htype.
Defined.

(** X12: The cursor [put] sets up hands the transport the bytes of the body
    and nothing else: whatever the transport asks for, it has received a
    beginning of the body, NUL bytes included, never the terminator that
    follows it in memory, and the whole body once it has asked for as
    many bytes as the body has. *)
Theorem put_uploads_exact_body (url ctype data : string)
    (reqs : list (N * N)) (r : response) :
  std.size data + 1 < SIZE_MAX_plus_1 →
  ∃ u u',
    upload_cursor (PUT url ctype data) = Some u ∧
    drive_callbacks (upload_requests reqs) r (Some u) ""
    = (r, Some u',
       std.take (N.to_nat (N.min (requested reqs) (std.size data))) data) ∧
    (std.size data ≤ requested reqs →
     drive_callbacks (upload_requests reqs) r (Some u) "" = (r, Some u', data)).
Proof.
  intros Hsize.
  destruct (put_upload_cursor url ctype data Hsize)
    as (u & Hu & Hvalid & Hrem & Hlen).
  destruct (upload_requests_run reqs r u "" Hvalid) as (u' & Hrun & _).
  rewrite str_app_nil_l, Hrem, Hlen in Hrun.
  exists u, u'. split; [done|]. split; [done|].
  intros Hreq. rewrite Hrun. do 2 f_equal.
  apply str_take_all. rewrite <-size_of_nat_length. lia.
Qed.

Lemma put_uploads_exact_body_witness :
  ∃ u u',
    upload_cursor (PUT "http://host/y" "application/octet-stream"
                     ("a" +:+ String zero "b")) = Some u ∧
    drive_callbacks (upload_requests [(1, 2); (1, 16)])
      (response.mk 0 "" ∅) (Some u) ""
    = (response.mk 0 "" ∅, Some u', "a" +:+ String zero "b").
Proof.
  destruct (put_uploads_exact_body "http://host/y" "application/octet-stream"
              ("a" +:+ String zero "b") [(1, 2); (1, 16)]
              (response.mk 0 "" ∅)) as (u & u' & Hu & _ & Hall);
    [reflexivity|].
  exists u, u'. split; [exact Hu|]. apply Hall. vm_compute. discriminate.
Defined.

(** ** The JSON layer *)

Lemma checkDjangoError_error_tree (msg : string) (w : world) :
  checkDjangoError (Some (error_tree msg)) w
  = (Returned true, logged w ["HTTP Error: " +:+ msg +:+ endl]).
Proof. reflexivity. Qed.

Lemma checkDjangoError_non_null (t : ptree) (w : world) :
  checkDjangoError (Some t) w
  = match first_child t "info", first_child t "traceback",
          first_child t "djerror", first_child t "error" with
    | Some info, Some traceback, _, _ =>
        (Returned true,
         logged w ["Django error: " +:+ boost.data info +:+ endl;
                   "    traceback: " +:+ boost.data traceback +:+ endl])
    | _, _, Some djerror, _ =>
        (Returned true,
         logged w ["Django error: " +:+ boost.data djerror +:+ endl])
    | _, _, None, Some error =>
        (Returned true, logged w ["HTTP Error: " +:+ boost.data error +:+ endl])
    | _, _, None, None => (Returned false, logged w [])
    end.
Proof.
  destruct (first_child t "info") as [info|] eqn:Hinfo;
    destruct (first_child t "traceback") as [traceback|] eqn:Htraceback;
    destruct (first_child t "djerror") as [djerror|] eqn:Hdjerror;
    destruct (first_child t "error") as [error|] eqn:Herror;
    unfold checkDjangoError; cbn [is_null];
    unfold mbind, mret, M_bind, M_ret, bind_M, ret_M;
    repeat (first
      [ rewrite ptreeHasChild_plain by done
      | erewrite get_child_plain by (done || eassumption)
      | rewrite LOG_ERROR_logged
      | rewrite logged_logged
      | rewrite Hinfo | rewrite Htraceback
      | rewrite Hdjerror | rewrite Herror ]; cbn);
    rewrite ?logged_nil; reflexivity.
Qed.

(** X13: [checkDjangoError] never throws and never dereferences a null
    pointer; it changes nothing but the log, to which it adds at most two
    lines, and none when it answers false. It answers true for the null
    tree, and for a tree exactly when the tree has direct children
    [info] and [traceback], or [djerror], or [error]. *)
Theorem checkDjangoError_detects (pt : shared_ptr_ptree) (w : world) :
  ∃ b lines,
    checkDjangoError pt w = (Returned b, logged w lines) ∧
    (length lines ≤ 2)%nat ∧
    (b = false → lines = []) ∧
    match pt with
    | None => b = true
    | Some t =>
        b = true ↔
        (boost.has_direct_child t "info" ∧
         boost.has_direct_child t "traceback") ∨
        boost.has_direct_child t "djerror" ∨
        boost.has_direct_child t "error"
    end.
Proof.
  destruct pt as [t|].
  - pose proof (checkDjangoError_non_null t w) as Hrun.
    pose proof (first_child_is_Some t "info") as Hinfo.
    pose proof (first_child_is_Some t "traceback") as Htraceback.
    pose proof (first_child_is_Some t "djerror") as Hdjerror.
    pose proof (first_child_is_Some t "error") as Herror.
    rewrite is_Some_alt in Hinfo, Htraceback, Hdjerror, Herror.
    destruct (first_child t "info"), (first_child t "traceback"),
      (first_child t "djerror"), (first_child t "error");
      do 2 eexists; (split; [exact Hrun|]); cbn [length];
      (split; [lia|]); (split; [done|]);
      first [tauto | split; [discriminate|tauto]].
  - exists true, ["JSON Error: null property tree" +:+ endl].
    split; [reflexivity|]. cbn. split; [lia|]. done.
Qed.

Section JsonLayerFacts.

Variable curl_easy_strerror : CURLcode → string.
Variable network : list curl_option → transfer.
Variable read_json : string → exception + ptree.
Variable indeterminate : Z.

Lemma parsePtree_cases (res : response) (url : string) (w : world) :
  (response.code res ≠ 200%Z ∧
   parsePtree read_json res url w
   = (Returned (Some (error_tree
        ("Status " +:+ std.of_int (response.code res)
         +:+ " when getting " +:+ url))),
      logged w ["When trying url [" +:+ url +:+ "], received non-OK code "
                +:+ std.of_int (response.code res) +:+ endl])) ∨
  (response.code res = 200%Z ∧
   ((∃ t, read_json (response.body res) = inr t ∧
          parsePtree read_json res url w = (Returned (Some t), w)) ∨
    (∃ e w', read_json (response.body res) = inl e ∧
             parsePtree read_json res url w = (Thrown e, w')))).
Proof.
  unfold parsePtree. case_decide as Hcode; [left; by split|].
  right. split; [done|].
  unfold mbind, mret, M_bind, M_ret, bind_M, ret_M, try_catch_rethrow,
    read_json_into, throw.
  destruct (read_json (response.body res)) as [e|t].
  - right. rewrite !LOG_ERROR_logged. cbn. by do 2 eexists.
  - left. by eexists.
Qed.

Lemma get_returns (url : string) (w : world) :
  ∃ res w', get curl_easy_strerror network indeterminate url w
            = (Returned res, w').
Proof.
  change (get curl_easy_strerror network indeterminate url w)
    with (perform_request curl_easy_strerror network indeterminate (GET url) w).
  rewrite perform_request_run. by do 2 eexists.
Qed.

Lemma post_returns (url ctype data : string) (w : world) :
  ∃ res w', post curl_easy_strerror network indeterminate url ctype data w
            = (Returned res, w').
Proof.
  change (post curl_easy_strerror network indeterminate url ctype data w)
    with (perform_request curl_easy_strerror network indeterminate
            (POST url ctype data) w).
  rewrite perform_request_run. by do 2 eexists.
Qed.

(** X14: The JSON layer never hands out a null tree and never dereferences
    one: [parsePtree], [getPropertyTree] and [postPropertyTree] either
    return a tree or throw, and [parsePtree] throws only what the JSON
    reader threw on the body of a response of status 200. *)
Theorem json_layer_never_returns_null (url : string) (w : world) :
  (∀ res,
     (∃ t w', parsePtree read_json res url w = (Returned (Some t), w')) ∨
     (∃ e w', parsePtree read_json res url w = (Thrown e, w') ∧
              response.code res = 200%Z ∧
              read_json (response.body res) = inl e)) ∧
  ((∃ t w', getPropertyTree curl_easy_strerror network read_json
              indeterminate url w = (Returned (Some t), w')) ∨
   (∃ e w', getPropertyTree curl_easy_strerror network read_json
              indeterminate url w = (Thrown e, w'))) ∧
  (∀ data,
     (∃ t w', postPropertyTree curl_easy_strerror network read_json
                indeterminate url data w = (Returned (Some t), w')) ∨
     (∃ e w', postPropertyTree curl_easy_strerror network read_json
                indeterminate url data w = (Thrown e, w'))).
Proof.
  assert (∀ res w1,
    (∃ t w', parsePtree read_json res url w1 = (Returned (Some t), w')) ∨
    (∃ e w', parsePtree read_json res url w1 = (Thrown e, w') ∧
             response.code res = 200%Z ∧
             read_json (response.body res) = inl e)) as Hparse.
  { intros res w1.
    destruct (parsePtree_cases res url w1)
      as [[_ ->]|[Hcode [(t & _ & ->)|(e & w' & He & ->)]]].
    - left. by do 2 eexists.
    - left. by do 2 eexists.
    - right. by exists e, w'. }
  split; [intros res; apply Hparse|]. split.
  - destruct (get_returns url w) as (res & w1 & Hget).
    rewrite (getPropertyTree_parses _ _ read_json _ _ _ _ _ Hget).
    destruct (Hparse res w1) as [?|(e & w' & -> & _)]; [by left|].
    right. by do 2 eexists.
  - intros data.
    destruct (post_returns url "application/x-www-form-urlencoded" data w)
      as (res & w1 & Hpost).
    rewrite (postPropertyTree_parses _ _ read_json _ _ _ _ _ _ Hpost).
    destruct (Hparse res w1) as [?|(e & w' & -> & _)]; [by left|].
    right. by do 2 eexists.
Qed.

(** X15: A response of any status but 200 ends, through [parsePtree] and then
    [checkDjangoError], in the answer true, with the status text logged
    as an HTTP error. *)
Theorem non_200_is_detected (res : response) (url : string) (w : world) :
  response.code res ≠ 200%Z →
  ∃ t w',
    parsePtree read_json res url w = (Returned (Some t), w') ∧
    checkDjangoError (Some t) w'
    = (Returned true,
       logged w' ["HTTP Error: Status " +:+ std.of_int (response.code res)
                  +:+ " when getting " +:+ url +:+ endl]).
Proof.
  intros Hcode.
  destruct (parsePtree_cases res url w) as [[_ ->]|[Hok _]]; [|done].
  do 2 eexists. split; [reflexivity|].
  rewrite checkDjangoError_error_tree. by rewrite !str_app_assoc.
Qed.

(** X16: A failed transfer surfaces in the JSON layer as data: for GET and
    for POST alike the caller gets the tree whose [error] child reads
    "Status -1 when getting <url>", one line is logged, and nothing is
    thrown, whatever the JSON reader would do. *)
Theorem transport_failure_becomes_error_tree (url : string) (w : world) :
  (CURLE_OK ≠ result (network (configured (this w) (GET url))) →
   ∃ w',
     getPropertyTree curl_easy_strerror network read_json indeterminate url w
     = (Returned (Some (error_tree ("Status -1 when getting " +:+ url))), w') ∧
     errlog w'
     = errlog w ++ ["When trying url [" +:+ url
                    +:+ "], received non-OK code -1" +:+ endl]) ∧
  (∀ data,
     CURLE_OK ≠ result (network (configured (this w)
                 (POST url "application/x-www-form-urlencoded" data))) →
     ∃ w',
       postPropertyTree curl_easy_strerror network read_json indeterminate
         url data w
       = (Returned (Some (error_tree ("Status -1 when getting " +:+ url))),
          w') ∧
       errlog w'
       = errlog w ++ ["When trying url [" +:+ url
                      +:+ "], received non-OK code -1" +:+ endl]).
Proof.
  assert (∀ r res w1,
            perform_request curl_easy_strerror network indeterminate r w
            = (Returned res, w1) →
            CURLE_OK ≠ result (network (configured (this w) r)) →
            response.code res = (-1)%Z ∧ errlog w1 = errlog w) as Hfail.
  { intros r res w1 Hrun Hne. rewrite perform_request_run in Hrun.
    injection Hrun as <- <-. unfold verb_response. by case_decide. }
  assert (std.of_int (-1) = "-1") as Hminus by reflexivity.
  assert (∀ res w1, response.code res = (-1)%Z →
            parsePtree read_json res url w1
            = (Returned (Some (error_tree ("Status -1 when getting " +:+ url))),
               logged w1 ["When trying url [" +:+ url
                          +:+ "], received non-OK code -1" +:+ endl])) as Hparse.
  { intros res w1 Hcode.
    destruct (parsePtree_cases res url w1) as [[_ ->]|[Hok _]]; [|congruence].
    rewrite Hcode, Hminus. reflexivity. }
  split.
  - intros Hne. destruct (get_returns url w) as (res & w1 & Hget).
    destruct (Hfail (GET url) res w1 Hget Hne) as [Hcode Hlog].
    rewrite (getPropertyTree_parses _ _ read_json _ _ _ _ _ Hget).
    rewrite (Hparse res w1 Hcode). eexists. split; [reflexivity|].
    unfold logged. cbn [errlog]. by rewrite Hlog.
  - intros data Hne.
    destruct (post_returns url "application/x-www-form-urlencoded" data w)
      as (res & w1 & Hpost).
    destruct (Hfail (POST url "application/x-www-form-urlencoded" data)
                res w1 Hpost Hne) as [Hcode Hlog].
    rewrite (postPropertyTree_parses _ _ read_json _ _ _ _ _ _ Hpost).
    rewrite (Hparse res w1 Hcode). eexists. split; [reflexivity|].
    unfold logged. cbn [errlog]. by rewrite Hlog.
Qed.

End JsonLayerFacts.

Lemma non_200_is_detected_witness :
  ∃ t w',
    parsePtree sample_read_json (response.mk 404 "{}" ∅) "http://host/x"
      fresh_world = (Returned (Some t), w') ∧
    checkDjangoError (Some t) w'
    = (Returned true,
       logged w' ["HTTP Error: Status 404 when getting http://host/x"
                  +:+ endl]).
Proof.
  destruct (non_200_is_detected sample_read_json (response.mk 404 "{}" ∅)
              "http://host/x" fresh_world) as (t & w' & Hparse & Hcheck);
    [discriminate|].
  exists t, w'. split; [exact Hparse|]. exact Hcheck.
Defined.

Lemma transport_failure_becomes_error_tree_witness :
  ∃ w',
    getPropertyTree sample_strerror refusing sample_read_json 0
      "http://host/x" fresh_world
    = (Returned (Some (error_tree "Status -1 when getting http://host/x")), w').
Proof.
  destruct (transport_failure_becomes_error_tree sample_strerror refusing
              sample_read_json 0 "http://host/x" fresh_world) as [Hget _].
  destruct Hget as (w' & Hrun & _); [discriminate|].
  exists w'. exact Hrun.
Defined.

(** ** Paths in ptreeHasChild *)

Lemma fragments_from_separator (cur a rest : string) :
  std.mem_char "." a = false →
  boost.fragments_from cur (a +:+ String "." rest)
  = (String.rev cur +:+ a)
    :: match rest with "" => [] | _ => boost.fragments_from "" rest end.
Proof.
  revert cur. induction a as [|c a IH]; intros cur.
  - intros _. rewrite str_app_nil_l, str_app_nil_r. cbn.
    by destruct rest.
  - cbn [std.mem_char]. destruct (decide ("."%char = c)) as [<-|Hc]; [done|].
    intros Ha. rewrite str_app_cons. cbn [boost.fragments_from].
    destruct (decide (c = "."%char)); [congruence|].
    rewrite IH by done. by rewrite str_rev_cons, str_app_assoc.
Qed.

(** X17: The child name is a path: for names [a] and [b] that are non-empty
    and hold no ['.'], the name [a.b] asks whether the first child named
    [a] has a direct child [b], the name [a.] asks the same as [a], and
    the empty name is answered with true for every tree. *)
Theorem ptreeHasChild_follows_paths (t : ptree) (a b : string) (w : world) :
  a ≠ "" → std.mem_char "." a = false →
  b ≠ "" → std.mem_char "." b = false →
  (∃ r, ptreeHasChild (Some t) (a +:+ "." +:+ b) w = (Returned r, w) ∧
        (r = true ↔ ∃ c, first_child t a = Some c ∧
                         boost.has_direct_child c b)) ∧
  ptreeHasChild (Some t) (a +:+ ".") w = ptreeHasChild (Some t) a w ∧
  ptreeHasChild (Some t) "" w = (Returned true, w).
Proof.
  intros Ha Hsa Hb Hsb. split; [|split].
  - eexists. split; [apply ptreeHasChild_non_null|].
    rewrite bool_decide_eq_true. unfold boost.get_child_optional.
    assert (boost.path_fragments (a +:+ "." +:+ b) = [a; b]) as ->.
    { unfold boost.path_fragments. rewrite str_app_cons, str_app_nil_l.
      destruct (a +:+ String "." b) eqn:E.
      { destruct a; discriminate. }
      rewrite <-E, fragments_from_separator by done.
      destruct b as [|c b]; [done|].
      by rewrite fragments_from_no_separator. }
    cbn [boost.walk_path]. fold (first_child t a).
    destruct (first_child t a) as [c|].
    + destruct (boost.find b (boost.children c)) eqn:Hfind.
      * split; [|done]. intros _. exists c. split; [done|].
        apply find_is_Some_direct_child. by rewrite Hfind.
      * split; [by intros []|]. intros (c' & [= <-] & Hhas).
        apply find_is_Some_direct_child in Hhas. by rewrite Hfind in Hhas.
    + split; [by intros []|]. by intros (c & [=] & _).
  - rewrite !ptreeHasChild_non_null. unfold boost.get_child_optional.
    assert (boost.path_fragments (a +:+ ".") = boost.path_fragments a) as ->;
      [|done].
    rewrite (path_fragments_plain a) by done. unfold boost.path_fragments.
    destruct (a +:+ ".") eqn:E.
    { destruct a; discriminate. }
    rewrite <-E, fragments_from_separator by done. done.
  - reflexivity.
Qed.

Lemma ptreeHasChild_follows_paths_witness :
  ptreeHasChild (Some nested_tree) "a.b" fresh_world
  = (Returned true, fresh_world) ∧
  ptreeHasChild (Some nested_tree) "a." fresh_world
  = ptreeHasChild (Some nested_tree) "a" fresh_world.
Proof.
  destruct (ptreeHasChild_follows_paths nested_tree "a" "b" fresh_world)
    as ((r & Hrun & Hiff) & Hdot & _); [done..|].
  split; [|exact Hdot].
  assert (r = true) as ->; [|exact Hrun].
  apply Hiff. eexists. split; [reflexivity|].
  exists (boost.Node "1" []). apply list_elem_of_here.
Defined.

(** X19: The header map of a verb's response is made by the header lines
    delivered and by nothing else: two transfers delivering the same
    events give the same headers, whether they end in [CURLE_OK] or fail,
    so the headers received before a failure are kept while the body is
    replaced by the error text. *)
Theorem headers_survive_failure (curl_easy_strerror : CURLcode → string)
    (network1 network2 : list curl_option → transfer) (indeterminate : Z)
    (r : request) (w : world) :
  events (network1 (configured (this w) r))
  = events (network2 (configured (this w) r)) →
  ∃ ret1 ret2 w1 w2,
    perform_request curl_easy_strerror network1 indeterminate r w
    = (Returned ret1, w1) ∧
    perform_request curl_easy_strerror network2 indeterminate r w
    = (Returned ret2, w2) ∧
    response.headers ret1 = response.headers ret2.
Proof.
  intros Hevents. do 4 eexists.
  split; [apply perform_request_run|]. split; [apply perform_request_run|].
  rewrite Hevents. unfold verb_response. by do 2 case_decide.
Qed.

Lemma headers_survive_failure_witness :
  ∃ ret1 ret2 w1 w2,
    get sample_strerror (answering 200 "{}") 0 "http://host/x" fresh_world
    = (Returned ret1, w1) ∧
    get sample_strerror (interrupted 200 "{}") 0 "http://host/x" fresh_world
    = (Returned ret2, w2) ∧
    response.code ret2 = (-1)%Z ∧
    response.headers ret1 = response.headers ret2 ∧
    response.headers ret2 !! "HTTP/1.1 200" = Some "present".
Proof.
  destruct (headers_survive_failure sample_strerror (answering 200 "{}")
              (interrupted 200 "{}") 0 (GET "http://host/x") fresh_world)
    as (ret1 & ret2 & w1 & w2 & Hrun1 & Hrun2 & Hsame); [reflexivity|].
  exists ret1, ret2, w1, w2. split; [exact Hrun1|]. split; [exact Hrun2|].
  change (perform_request sample_strerror (interrupted 200 "{}") 0
            (GET "http://host/x") fresh_world)
    with (get sample_strerror (interrupted 200 "{}") 0 "http://host/x"
            fresh_world) in Hrun2.
  vm_compute in Hrun2. injection Hrun2 as <- _.
  split; [reflexivity|]. split; [exact Hsame|]. reflexivity.
Defined.
